(** * PrivateDAOQuadraticVoting: a shallow embedding of the voting contract

    The Solidity contract [PrivateDAOQuadraticVoting] (the last part of
    src/frontend/web/src/App.tsx, from [pragma solidity] on) keeps a counter of
    proposals, a mapping of proposals holding two encrypted accumulators, a
    nested mapping of per-member vote records and a mapping of token
    balances.  Each public function is embedded below as a computation in a
    small state-and-revert monad; a transaction that reverts leaves the
    storage as it was.

    The FHE library ([FHE.add], [FHE.mul], [FHE.asEuint32], [FHE.toBytes32],
    [FHE.requestDecryption], [FHE.checkSignatures]) and the compiler's ABI
    decoder are not part of the contract: they are the fields of the
    [Backend] class, and every statement about the contract is made for an
    arbitrary backend. *)

From Stdlib Require Import NArith Lia String List.
From stdpp Require Import base option gmap list.

Local Open Scope string_scope.
Local Open Scope list_scope.
Local Open Scope stdpp_scope.
Local Open Scope N_scope.

(** ** Machine types *)

(** [uint256] and [address] values are naturals; the bound of the word is
    enforced where Solidity 0.8 enforces it, in checked arithmetic. *)
Abbreviation uint256 := N (only parsing).
Abbreviation address := N (only parsing).
Abbreviation bytes32 := N (only parsing).
Abbreviation bytes := (list Byte.byte) (only parsing).

Definition UINT256_MAX : N := 2 ^ 256 - 1.
Definition UINT32_MOD : N := 2 ^ 32.

(** ** The external collaborators *)

Class Backend := {
  (** an encrypted 32-bit unsigned integer (an opaque handle) *)
  euint32 : Type;
  (** the handle a storage slot holds before anything is written to it *)
  euint32_unset : euint32;
  FHE_asEuint32 : N → euint32;
  (** [FHE.add] and [FHE.mul]: the handle of the sum and of the product.
      Whether the library lets the contract use a handle is not part of
      these two fields: what is stated of a vote is stated of a vote that
      went through, or of a guard that stops it before the library is
      called. *)
  FHE_add : euint32 → euint32 → euint32;
  FHE_mul : euint32 → euint32 → euint32;
  FHE_toBytes32 : euint32 → bytes32;
  (** the library's own book-keeping of decryption requests *)
  oracle : Type;
  (** [FHE.requestDecryption ciphertexts callback]: the request id and the
      library's new book-keeping, or [None] when the library refuses the
      request and reverts (the contract grants itself no permission on its
      handles); the callback is given by its name, which stands for its
      selector *)
  FHE_requestDecryption : oracle → list bytes32 → string → option (uint256 * oracle);
  (** [FHE.checkSignatures requestId cleartexts proof] reverts unless the
      proof verifies; [true] means it verifies *)
  FHE_checkSignatures : oracle → uint256 → bytes → bytes → bool;
  (** [abi.decode(cleartexts, (uint32[]))]; [None] means the decoder reverts *)
  abi_decode_uint32_array : bytes → option (list N);
}.

(** What the encryption scheme promises about the plaintext behind a handle:
    arithmetic on [euint32] is arithmetic on 32-bit words. *)
Class Homomorphic (B : Backend) := {
  decrypt : euint32 → N;
  decrypt_range : ∀ c, decrypt c < UINT32_MOD;
  decrypt_asEuint32 : ∀ n, decrypt (FHE_asEuint32 n) = n mod UINT32_MOD;
  decrypt_add : ∀ a b, decrypt (FHE_add a b) = (decrypt a + decrypt b) mod UINT32_MOD;
  decrypt_mul : ∀ a b, decrypt (FHE_mul a b) = (decrypt a * decrypt b) mod UINT32_MOD;
}.

(** ** Reverts *)

Inductive failure : Type :=
  | Error (reason : string)     (* require(cond, reason) *)
  | Panic (code : N)            (* 0x11: arithmetic overflow or underflow *)
  | ExternalRevert (what : string).  (* a revert raised outside the contract *)

Inductive result (A : Type) : Type :=
  | Ok (a : A)
  | Revert (f : failure).
Arguments Ok {A} a.
Arguments Revert {A} f.

(** The error kinds of the specification. *)
Inductive ErrorKind : Type :=
  | ProposalNotFound | VotingClosed | VotingStillOpen | AlreadyVoted
  | InsufficientBalance | VoteCountExceedsLimit | RequestAlreadyPending
  | UnknownRequest | AlreadyFulfilled | InvalidProof | AlreadyDecrypted
  | Overflow.

(** The kind a revert of the contract is reported as. *)
Definition error_kind (f : failure) : option ErrorKind :=
  match f with
  | Error "Voting closed" => Some VotingClosed
  | Error "Already voted" => Some AlreadyVoted
  | Error "Voting still open" => Some VotingStillOpen
  | Error "Insufficient tokens" => Some InsufficientBalance
  | Error "Insufficient balance" => Some InsufficientBalance
  | Panic 17 => Some Overflow
  | ExternalRevert "FHE.checkSignatures" => Some InvalidProof
  | _ => None
  end.

Section Contract.
Context {B : Backend}.

(** ** Storage *)

Record EncryptedProposal := mkProposal {
  id : uint256;
  encryptedTitle : euint32;
  encryptedDetails : euint32;
  encryptedVoteCount : euint32;
  encryptedCostSum : euint32;
  endTime : uint256;
}.

Record MemberVote := mkMemberVote {
  encryptedVotes : euint32;
  hasVoted : bool;
}.

(** A mapping slot that was never written reads as the zero value. *)
Definition zeroProposal : EncryptedProposal :=
  mkProposal 0 euint32_unset euint32_unset euint32_unset euint32_unset 0.
Definition zeroMemberVote : MemberVote :=
  mkMemberVote euint32_unset false.

Record Storage := mkStorage {
  proposalCount : uint256;
  encryptedProposals : gmap N EncryptedProposal;
  memberVotes : gmap (N * N) MemberVote;
  memberTokenBalances : gmap N N;
  fheRequests : oracle;
}.

Definition VOTING_PERIOD : uint256 := 7 * 86400.
Definition MAX_VOTES_PER_PROPOSAL : uint256 := 100.

Inductive Event : Type :=
  | ProposalCreated (id endTime : uint256)
  | VoteCast (proposalId : uint256) (voter : address)
  | VoteTallyDecrypted (proposalId : uint256)
  | Transfer (to : address) (amount : uint256).

(** Reads of the three mappings. *)
Definition proposal (s : Storage) (proposalId : uint256) : EncryptedProposal :=
  default zeroProposal (encryptedProposals s !! proposalId).
Definition memberVote (s : Storage) (proposalId : uint256) (member : address) : MemberVote :=
  default zeroMemberVote (memberVotes s !! (proposalId, member)).
Definition balanceOf (s : Storage) (member : address) : uint256 :=
  default 0 (memberTokenBalances s !! member).

(** Writes. *)
Definition set_proposalCount (n : uint256) (s : Storage) : Storage :=
  mkStorage n (encryptedProposals s) (memberVotes s) (memberTokenBalances s) (fheRequests s).
Definition set_proposal (proposalId : uint256) (p : EncryptedProposal) (s : Storage) : Storage :=
  mkStorage (proposalCount s) (<[proposalId := p]> (encryptedProposals s))
            (memberVotes s) (memberTokenBalances s) (fheRequests s).
Definition set_memberVote (proposalId : uint256) (member : address) (v : MemberVote)
    (s : Storage) : Storage :=
  mkStorage (proposalCount s) (encryptedProposals s)
            (<[(proposalId, member) := v]> (memberVotes s))
            (memberTokenBalances s) (fheRequests s).
Definition set_balance (member : address) (n : uint256) (s : Storage) : Storage :=
  mkStorage (proposalCount s) (encryptedProposals s) (memberVotes s)
            (<[member := n]> (memberTokenBalances s)) (fheRequests s).
Definition set_fheRequests (o : oracle) (s : Storage) : Storage :=
  mkStorage (proposalCount s) (encryptedProposals s) (memberVotes s)
            (memberTokenBalances s) o.

Definition set_encryptedVoteCount (c : euint32) (p : EncryptedProposal) : EncryptedProposal :=
  mkProposal (id p) (encryptedTitle p) (encryptedDetails p) c (encryptedCostSum p) (endTime p).
Definition set_encryptedCostSum (c : euint32) (p : EncryptedProposal) : EncryptedProposal :=
  mkProposal (id p) (encryptedTitle p) (encryptedDetails p) (encryptedVoteCount p) c (endTime p).

(** ** The execution monad *)

(** What a call sees of its transaction. *)
Record Env := mkEnv {
  msg_sender : address;
  block_timestamp : uint256;
  (** whether the sender's account accepts ether that is sent to it *)
  accepts_transfer : bool;
}.

Definition M (A : Type) : Type :=
  Env → Storage → result (A * Storage * list Event).

#[export] Instance M_ret : MRet M := λ A a _ s, Ok (a, s, []).
#[export] Instance M_bind : MBind M := λ A C k m e s,
  match m e s with
  | Revert f => Revert f
  | Ok (a, s1, l1) =>
      match k a e s1 with
      | Revert f => Revert f
      | Ok (c, s2, l2) => Ok (c, s2, l1 ++ l2)
      end
  end.
Definition revert {A} (f : failure) : M A := λ _ _, Revert f.
Definition require (cond : bool) (reason : string) : M unit :=
  if cond then mret tt else revert (Error reason).
Definition gets {A} (f : Storage → A) : M A := λ _ s, Ok (f s, s, []).
Definition modify (f : Storage → Storage) : M unit := λ _ s, Ok (tt, f s, []).
Definition sender : M address := λ e s, Ok (msg_sender e, s, []).
Definition timestamp : M uint256 := λ e s, Ok (block_timestamp e, s, []).
Definition emit (ev : Event) : M unit := λ _ s, Ok (tt, s, [ev]).

(** Checked arithmetic of Solidity 0.8. *)
Definition checked_add (a b : uint256) : M uint256 :=
  if a + b <=? UINT256_MAX then mret (a + b) else revert (Panic 17).
Definition checked_sub (a b : uint256) : M uint256 :=
  if b <=? a then mret (a - b) else revert (Panic 17).
Definition checked_mul (a b : uint256) : M uint256 :=
  if a * b <=? UINT256_MAX then mret (a * b) else revert (Panic 17).

(** ** Modifiers *)

(** [modifier votingOpen(uint256 proposalId)] *)
Definition votingOpen (proposalId : uint256) (body : M unit) : M unit :=
  now ← timestamp;
  p ← gets (λ s, proposal s proposalId);
  require (now <? endTime p) "Voting closed";;
  body.

(** [modifier sufficientTokens(uint256 voteCount)]; no function of the
    contract carries it. *)
Definition sufficientTokens (voteCount : uint256) (body : M unit) : M unit :=
  who ← sender;
  bal ← gets (λ s, balanceOf s who);
  cost ← checked_mul voteCount voteCount;
  require (cost <=? bal) "Insufficient tokens";;
  body.

(** ** Functions *)

Definition createEncryptedProposal (encryptedTitle encryptedDetails : euint32) : M unit :=
  count ← gets proposalCount;
  count' ← checked_add count 1;
  modify (set_proposalCount count');;
  newId ← gets proposalCount;
  now ← timestamp;
  deadline ← checked_add now VOTING_PERIOD;
  modify (set_proposal newId
            (mkProposal newId encryptedTitle encryptedDetails
                        (FHE_asEuint32 0) (FHE_asEuint32 0) deadline));;
  deadline' ← checked_add now VOTING_PERIOD;
  emit (ProposalCreated newId deadline').

Definition castEncryptedVote (proposalId : uint256) (encryptedVoteCount : euint32) : M unit :=
  votingOpen proposalId (
    who ← sender;
    mv ← gets (λ s, memberVote s proposalId who);
    require (negb (hasVoted mv)) "Already voted";;
    modify (set_memberVote proposalId who (mkMemberVote encryptedVoteCount true));;
    p ← gets (λ s, proposal s proposalId);
    modify (set_proposal proposalId
              (set_encryptedVoteCount
                 (FHE_add p.(Contract.encryptedVoteCount) encryptedVoteCount) p));;
    let encryptedCost := FHE_mul encryptedVoteCount encryptedVoteCount in
    p' ← gets (λ s, proposal s proposalId);
    modify (set_proposal proposalId
              (set_encryptedCostSum (FHE_add (encryptedCostSum p') encryptedCost) p'));;
    emit (VoteCast proposalId who)).

(** [uint256 reqId] is bound and never used. *)
Definition requestVoteTallyDecryption (proposalId : uint256) : M unit :=
  now ← timestamp;
  p ← gets (λ s, proposal s proposalId);
  require (endTime p <=? now) "Voting still open";;
  vc ← gets (λ s, Contract.encryptedVoteCount (proposal s proposalId));
  cs ← gets (λ s, encryptedCostSum (proposal s proposalId));
  let ciphertexts := [FHE_toBytes32 vc; FHE_toBytes32 cs] in
  o ← gets fheRequests;
  match FHE_requestDecryption o ciphertexts "decryptVoteTally" with
  | Some (reqId, o') => modify (set_fheRequests o')
  | None => revert (ExternalRevert "FHE.requestDecryption")
  end.

(** The decoded [results] are not stored: the two assignments are commented
    out in the source. *)
Definition decryptVoteTally (requestId : uint256) (cleartexts proof : bytes) : M unit :=
  o ← gets fheRequests;
  (if FHE_checkSignatures o requestId cleartexts proof
   then mret tt else revert (ExternalRevert "FHE.checkSignatures"));;
  results ← match abi_decode_uint32_array cleartexts with
            | Some r => mret r
            | None => revert (ExternalRevert "abi.decode")
            end;
  let proposalId := requestId in
  emit (VoteTallyDecrypted proposalId).

(** [depositTokens] is the one payable function; [msg_value] is the ether
    the call carries. *)
Definition depositTokens (msg_value : uint256) : M unit :=
  who ← sender;
  bal ← gets (λ s, balanceOf s who);
  bal' ← checked_add bal msg_value;
  modify (set_balance who bal').

Definition transfer (to : address) (amount : uint256) : M unit :=
  λ e s, if accepts_transfer e then Ok (tt, s, [Transfer to amount])
         else Revert (ExternalRevert "transfer").

Definition withdrawTokens (amount : uint256) : M unit :=
  who ← sender;
  bal ← gets (λ s, balanceOf s who);
  require (amount <=? bal) "Insufficient balance";;
  bal' ← checked_sub bal amount;
  modify (set_balance who bal');;
  transfer who amount.

(** ** Transactions *)

(** The calls the contract accepts.  Only [depositTokens] is payable; a call
    of another function that carries ether never enters the function. *)
Inductive Call : Type :=
  | CreateEncryptedProposal (encryptedTitle encryptedDetails : euint32)
  | CastEncryptedVote (proposalId : uint256) (encryptedVoteCount : euint32)
  | RequestVoteTallyDecryption (proposalId : uint256)
  | DecryptVoteTally (requestId : uint256) (cleartexts proof : bytes)
  | DepositTokens (msg_value : uint256)
  | WithdrawTokens (amount : uint256).

Definition dispatch (c : Call) : M unit :=
  match c with
  | CreateEncryptedProposal t d => createEncryptedProposal t d
  | CastEncryptedVote p v => castEncryptedVote p v
  | RequestVoteTallyDecryption p => requestVoteTallyDecryption p
  | DecryptVoteTally r c p => decryptVoteTally r c p
  | DepositTokens v => depositTokens v
  | WithdrawTokens a => withdrawTokens a
  end.

(** The storage after a call: a reverted call leaves it as it was. *)
Definition storage_after {A} (m : M A) (e : Env) (s : Storage) : Storage :=
  match m e s with
  | Ok (_, s', _) => s'
  | Revert _ => s
  end.

Definition succeeds {A} (m : M A) (e : Env) (s : Storage) : Prop :=
  ∃ a s' l, m e s = Ok (a, s', l).

Definition fails_with {A} (m : M A) (e : Env) (s : Storage) (k : ErrorKind) : Prop :=
  ∃ f, m e s = Revert f ∧ error_kind f = Some k.

Definition transact (s : Storage) (tx : Env * Call) : Storage :=
  storage_after (dispatch tx.2) tx.1 s.

Definition transact_all (s : Storage) (txs : list (Env * Call)) : Storage :=
  foldl transact s txs.

End Contract.

(** ** A transparent backend

    A backend in which a handle is the 32-bit word it stands for, and in
    which the library accepts every decryption request.  It is the backend
    the contract is run on in the examples below. *)

Module Clear.

(** The big-endian value of a run of bytes. *)
Definition be_value (bs : bytes) : N :=
  fold_left (λ acc b, acc * 256 + Byte.to_N b) bs 0.

(** The 32-byte word at an offset, if the data reach that far. *)
Definition word_at (data : bytes) (offset : N) : option N :=
  let w := take 32 (drop (N.to_nat offset) data) in
  if (length w =? 32)%nat then Some (be_value w) else None.

Fixpoint words_from (data : bytes) (offset : N) (count : nat) : option (list N) :=
  match count with
  | O => Some []
  | S count' =>
      w ← word_at data offset;
      if w <? UINT32_MOD
      then (w ::.) <$> words_from data (offset + 32) count'
      else None
  end.

(** The ABI layout of a single [uint32[]]: the offset of the array, its
    length, and one word for each element. *)
Definition decode_uint32_array (data : bytes) : option (list N) :=
  head ← word_at data 0;
  len ← word_at data head;
  if head + 32 + 32 * len <=? N.of_nat (length data)
  then words_from data (head + 32) (N.to_nat len)
  else None.

Fixpoint be_bytes (width : nat) (n : N) : bytes :=
  match width with
  | O => []
  | S width' =>
      be_bytes width' (n / 256) ++ [default Byte.x00 (Byte.of_N (n mod 256))]
  end.

Definition word (n : N) : bytes := be_bytes 32 n.

Definition encode_uint32_array (l : list N) : bytes :=
  word 32 ++ word (N.of_nat (length l)) ++ concat (map word l).

(** The one proof the transparent backend accepts. *)
Definition kms_proof : bytes := [Byte.x4b; Byte.x4d; Byte.x53].

Definition bytes_eqb (a b : bytes) : bool :=
  bool_decide (map Byte.to_N a = map Byte.to_N b).

(** A proof verifies when the request is one the library saved, the
    cleartexts are those of the saved handles, and the proof is [kms_proof]. *)
Definition check_signatures (saved : list (list N)) (requestId : N)
    (cleartexts proof : bytes) : bool :=
  match saved !! N.to_nat requestId with
  | Some handles =>
      bool_decide (decode_uint32_array cleartexts = Some handles)
      && bytes_eqb proof kms_proof
  | None => false
  end.

#[export] Instance backend : Backend := {|
  euint32 := N;
  euint32_unset := 0;
  FHE_asEuint32 n := n mod UINT32_MOD;
  FHE_add a b := (a + b) mod UINT32_MOD;
  FHE_mul a b := (a * b) mod UINT32_MOD;
  FHE_toBytes32 c := c;
  oracle := list (list N);
  FHE_requestDecryption saved ciphertexts _ :=
    Some (N.of_nat (length saved), saved ++ [ciphertexts]);
  FHE_checkSignatures := check_signatures;
  abi_decode_uint32_array := decode_uint32_array;
|}.

(** The storage of the freshly deployed contract. *)
Definition genesis : Storage := mkStorage 0 ∅ ∅ ∅ [].

Definition at_time (who : N) (now : N) : Env := mkEnv who now true.

End Clear.

(** ** Derived notions used in the statements *)

Section Derived.
Context {B : Backend}.

(** The storage a successful vote of [who] on [proposalId] leaves. *)
Definition voted (proposalId : uint256) (who : address) (c : euint32) (s : Storage) : Storage :=
  let p := proposal s proposalId in
  let p1 := set_encryptedVoteCount (FHE_add (encryptedVoteCount p) c) p in
  let p2 := set_encryptedCostSum (FHE_add (encryptedCostSum p1) (FHE_mul c c)) p1 in
  set_proposal proposalId p2
    (set_proposal proposalId p1
       (set_memberVote proposalId who (mkMemberVote c true) s)).

(** The storage a successful [createEncryptedProposal] leaves. *)
Definition created (title details : euint32) (now : uint256) (s : Storage) : Storage :=
  let newId := proposalCount s + 1 in
  set_proposal newId
    (mkProposal newId title details (FHE_asEuint32 0) (FHE_asEuint32 0)
                (now + VOTING_PERIOD))
    (set_proposalCount newId s).

(** A run of votes on one proposal, each by the sender of its environment;
    [None] as soon as one of them reverts. *)
Fixpoint cast_all (proposalId : uint256) (votes : list (Env * euint32)) (s : Storage)
    : option Storage :=
  match votes with
  | [] => Some s
  | (e, c) :: rest =>
      match castEncryptedVote proposalId c e s with
      | Ok (_, s', _) => cast_all proposalId rest s'
      | Revert _ => None
      end
  end.

(** The conditions under which every vote of a run is accepted. *)
Definition admissible (proposalId : uint256) (votes : list (Env * euint32)) (s : Storage)
    : Prop :=
  Forall (λ v : Env * euint32,
            block_timestamp v.1 < endTime (proposal s proposalId)
            ∧ hasVoted (memberVote s proposalId (msg_sender v.1)) = false) votes
  ∧ NoDup (map (λ v : Env * euint32, msg_sender v.1) votes).

End Derived.

Section Tally.
Context {B : Backend} {H : Homomorphic B}.

(** The plaintext sums a run of votes stands for. *)
Definition sum_votes (votes : list (Env * euint32)) : N :=
  foldr (λ v acc, decrypt v.2 + acc) 0 votes.
Definition sum_costs (votes : list (Env * euint32)) : N :=
  foldr (λ v acc, decrypt v.2 * decrypt v.2 + acc) 0 votes.

End Tally.

#[export] Instance clear_homomorphic : Homomorphic Clear.backend.
Proof.
  refine (Build_Homomorphic Clear.backend (λ c, N.modulo c UINT32_MOD) _ _ _ _);
    simpl; intros.
  - apply N.mod_lt. discriminate.
  - apply N.Div0.mod_mod.
  - rewrite N.Div0.mod_mod. apply N.Div0.add_mod.
  - rewrite N.Div0.mod_mod. apply N.Div0.mul_mod.
Defined.

(** ** Scenarios on the transparent backend *)

Module Scenario.
Import Clear.

Definition alice : N := 8.
Definition bob : N := 9.

(** Proposal 1 is created at time 1000; its deadline is 1000 + 7 days. *)
Definition s_created : Storage :=
  transact genesis (at_time alice 1000, CreateEncryptedProposal 11 22).
Definition deadline : N := 605800.

(** Alice deposits 100 tokens. *)
Definition s_funded : Storage :=
  transact s_created (at_time alice 1001, DepositTokens 100).

(** Alice casts 3 votes on proposal 1. *)
Definition s_voted : Storage :=
  transact s_funded (at_time alice 1002, CastEncryptedVote 1 3).

(** A second proposal is created and Bob casts 3 votes on it. *)
Definition s_two : Storage :=
  transact_all s_voted
    [(at_time alice 1003, CreateEncryptedProposal 33 44);
     (at_time bob 1004, CastEncryptedVote 2 3)].

(** After the deadline of both, decryption of proposal 2 is requested; the
    library hands out request 0. *)
Definition s_requested : Storage :=
  transact s_two (at_time bob 700000, RequestVoteTallyDecryption 2).

(** A crowd of members 0, 1, ..., each casting 100 votes on proposal 1. *)
Definition crowd_from (first count : nat) : list (Env * N) :=
  map (λ i : nat, (at_time (N.of_nat i) 1002, 100)) (seq first count).
Definition crowd (count : N) : list (Env * N) := crowd_from 0 (N.to_nat count).

End Scenario.

(** ** Traces of transactions *)

Section Traces.
Context {B : Backend}.

(** The storage of the contract when it is deployed; [o] is the book-keeping
    the FHE library starts from. *)
Definition initial (o : oracle) : Storage := mkStorage 0 ∅ ∅ ∅ o.

(** Whether a transaction goes through. *)
Definition accepted (s : Storage) (tx : Env * Call) : bool :=
  match dispatch tx.2 tx.1 s with
  | Ok _ => true
  | Revert _ => false
  end.

(** The tokens a transaction adds to the account of [m], and the tokens it
    pays out of it. *)
Definition paid_in (m : address) (s : Storage) (tx : Env * Call) : N :=
  match tx.2 with
  | DepositTokens v => if accepted s tx && (msg_sender tx.1 =? m) then v else 0
  | _ => 0
  end.
Definition paid_out (m : address) (s : Storage) (tx : Env * Call) : N :=
  match tx.2 with
  | WithdrawTokens a => if accepted s tx && (msg_sender tx.1 =? m) then a else 0
  | _ => 0
  end.

Fixpoint total_paid_in (m : address) (s : Storage) (txs : list (Env * Call)) : N :=
  match txs with
  | [] => 0
  | tx :: rest => paid_in m s tx + total_paid_in m (transact s tx) rest
  end.
Fixpoint total_paid_out (m : address) (s : Storage) (txs : list (Env * Call)) : N :=
  match txs with
  | [] => 0
  | tx :: rest => paid_out m s tx + total_paid_out m (transact s tx) rest
  end.

(** The vote a transaction casts on proposal [q], if it casts one that is
    accepted. *)
Definition vote_on (q : uint256) (s : Storage) (tx : Env * Call) : option euint32 :=
  match tx.2 with
  | CastEncryptedVote p c => if accepted s tx && (p =? q) then Some c else None
  | _ => None
  end.

(** The accepted votes on [q] in a trace, in the order they are cast. *)
Fixpoint votes_on (q : uint256) (s : Storage) (txs : list (Env * Call)) : list euint32 :=
  match txs with
  | [] => []
  | tx :: rest =>
      match vote_on q s tx with
      | Some c => c :: votes_on q (transact s tx) rest
      | None => votes_on q (transact s tx) rest
      end
  end.

(** What holds of the storage in every state the contract can reach: the
    proposals stored are those numbered 1 to [proposalCount], each under its
    own id and with a deadline of at least [VOTING_PERIOD]; a vote record
    exists only for such a proposal and only with [hasVoted] set; and the
    counter, the deadlines and the balances are within [uint256]. *)
Definition well_formed (s : Storage) : Prop :=
  (∀ q, is_Some (encryptedProposals s !! q) ↔ 1 ≤ q ≤ proposalCount s)
  ∧ (∀ q p, encryptedProposals s !! q = Some p →
       id p = q ∧ VOTING_PERIOD ≤ endTime p ≤ UINT256_MAX)
  ∧ (∀ q m v, memberVotes s !! (q, m) = Some v →
       hasVoted v = true ∧ 1 ≤ q ≤ proposalCount s)
  ∧ proposalCount s ≤ UINT256_MAX
  ∧ (∀ m, balanceOf s m ≤ UINT256_MAX).

End Traces.

Section TraceTally.
Context {B : Backend} {H : Homomorphic B}.

Definition sum_plain (cs : list euint32) : N :=
  foldr (λ c acc, decrypt c + acc) 0 cs.
Definition sum_squares (cs : list euint32) : N :=
  foldr (λ c acc, decrypt c * decrypt c + acc) 0 cs.

End TraceTally.

(** ** The vote selector of the web client

    The React component keeps, in [voteAmounts], the number of votes chosen
    for each proposal; [updateVoteAmount] is its one writer, and [castVote],
    the input field and the two buttons read it as [voteAmounts[id] || 1]. *)

Module Client.

(** A number of the client: an integer, or NaN.  An infinite result of
    [parseInt] is clamped like every integer beyond the bounds and is
    represented by one. *)
Inductive number : Type :=
  | Int (n : Z)
  | NaN.

(** What a read of [voteAmounts[id]] gives when it is not [undefined]: a
    stored number, or, for an id that names a member of [Object.prototype]
    and has no entry, that member (a function or an object). *)
Inductive value : Type :=
  | Number (x : number)
  | Member.

Definition object_prototype_members : list string :=
  ["constructor"; "__defineGetter__"; "__defineSetter__"; "hasOwnProperty";
   "__lookupGetter__"; "__lookupSetter__"; "isPrototypeOf";
   "propertyIsEnumerable"; "toString"; "valueOf"; "__proto__"; "toLocaleString"].

Definition inherited (k : string) : bool :=
  bool_decide (k ∈ object_prototype_members).

(** [voteAmounts[id]]; [None] is [undefined]. *)
Definition read (voteAmounts : gmap string number) (k : string) : option value :=
  match voteAmounts !! k with
  | Some x => Some (Number x)
  | None => if inherited k then Some Member else None
  end.

(** [v || 1]: [undefined], [NaN] and [0] are falsy. *)
Definition or_one (v : option value) : value :=
  match v with
  | None => Number (Int 1)
  | Some (Number NaN) => Number (Int 1)
  | Some (Number (Int 0)) => Number (Int 1)
  | Some v => v
  end.

(** The number [Math.min] makes of what it is given. *)
Definition numeric (v : value) : number :=
  match v with
  | Number x => x
  | Member => NaN
  end.

(** [v + k] and [v - k] as [updateVoteAmount] sees them: with a member of
    [Object.prototype] for [v] the difference is NaN and the sum is a string
    that [Math.min] turns into NaN. *)
Definition offset (v : value) (k : Z) : number :=
  match v with
  | Number (Int n) => Int (n + k)
  | _ => NaN
  end.

(** [Math.max(1, Math.min(amount, 10))] *)
Definition clamp (amount : number) : number :=
  match amount with
  | Int n => Int (Z.max 1 (Z.min n 10))
  | NaN => NaN
  end.

(** [updateVoteAmount(proposalId, amount)] *)
Definition updateVoteAmount (proposalId : string) (amount : number)
    (prev : gmap string number) : gmap string number :=
  <[proposalId := clamp amount]> prev.

(** [const votes = voteAmounts[proposalId] || 1] of [castVote], which is
    also the value the input field shows. *)
Definition votes (voteAmounts : gmap string number) (proposalId : string) : value :=
  or_one (read voteAmounts proposalId).

(** [const cost = votes * votes], and [votes ** 2] on the button. *)
Definition cost (voteAmounts : gmap string number) (proposalId : string) : number :=
  match votes voteAmounts proposalId with
  | Number (Int n) => Int (n * n)
  | _ => NaN
  end.

(** What the user does to the selector of a proposal: type a text, which
    [parseInt] turns into a number, or press one of the two buttons. *)
Inductive Action : Type :=
  | Typed (proposalId : string) (parsed : number)
  | Plus (proposalId : string)
  | Minus (proposalId : string).

Definition act (voteAmounts : gmap string number) (a : Action) : gmap string number :=
  match a with
  | Typed k parsed =>
      updateVoteAmount k (numeric (or_one (Some (Number parsed)))) voteAmounts
  | Plus k => updateVoteAmount k (offset (votes voteAmounts k) 1) voteAmounts
  | Minus k => updateVoteAmount k (offset (votes voteAmounts k) (-1)) voteAmounts
  end.

Definition acts (voteAmounts : gmap string number) (l : list Action) : gmap string number :=
  foldl act voteAmounts l.

(** What the selector stores: a number from 1 to 10, or NaN under an id that
    names a member of [Object.prototype]. *)
Definition settled (voteAmounts : gmap string number) : Prop :=
  ∀ k x, voteAmounts !! k = Some x →
    (∃ n, x = Int n ∧ (1 ≤ n ≤ 10)%Z) ∨ (x = NaN ∧ inherited k = true).

End Client.

(** ** Running the monad *)

Section Equations.
Context {B : Backend}.

Ltac run :=
  unfold mbind, M_bind, mret, M_ret, gets, modify, sender, timestamp, emit,
    require, revert, checked_add, checked_sub, checked_mul, transfer;
  simpl.

Lemma proposal_set_proposal_eq p x s : proposal (set_proposal p x s) p = x.
Proof. unfold proposal, set_proposal; simpl. by rewrite lookup_insert_eq. Qed.

Lemma proposal_set_proposal_ne p q x s :
  p ≠ q → proposal (set_proposal p x s) q = proposal s q.
Proof. intros. unfold proposal, set_proposal; simpl. by rewrite lookup_insert_ne. Qed.

Lemma memberVote_set_memberVote_eq p m v s :
  memberVote (set_memberVote p m v s) p m = v.
Proof. unfold memberVote, set_memberVote; simpl. by rewrite lookup_insert_eq. Qed.

Lemma memberVote_set_memberVote_ne p m q n v s :
  (p, m) ≠ (q, n) → memberVote (set_memberVote p m v s) q n = memberVote s q n.
Proof. intros. unfold memberVote, set_memberVote; simpl. by rewrite lookup_insert_ne. Qed.

Lemma balanceOf_set_balance_eq m n s : balanceOf (set_balance m n s) m = n.
Proof. unfold balanceOf, set_balance; simpl. by rewrite lookup_insert_eq. Qed.

Lemma balanceOf_set_balance_ne m m' n s :
  m ≠ m' → balanceOf (set_balance m n s) m' = balanceOf s m'.
Proof. intros. unfold balanceOf, set_balance; simpl. by rewrite lookup_insert_ne. Qed.

(** [castEncryptedVote] in one equation: the deadline is tested first, then
    the vote record; nothing else is tested. *)
Lemma castEncryptedVote_eq p c e s :
  castEncryptedVote p c e s =
    if block_timestamp e <? endTime (proposal s p) then
      if hasVoted (memberVote s p (msg_sender e))
      then Revert (Error "Already voted")
      else Ok (tt, voted p (msg_sender e) c s, [VoteCast p (msg_sender e)])
    else Revert (Error "Voting closed").
Proof.
  unfold castEncryptedVote, votingOpen. run.
  destruct (block_timestamp e <? endTime (proposal s p)); simpl; [|done].
  destruct (hasVoted (memberVote s p (msg_sender e))); simpl; [done|].
  unfold voted. rewrite proposal_set_proposal_eq.
  unfold proposal at 1 2 3 4 5 6 7 8; simpl. done.
Qed.

Lemma createEncryptedProposal_eq t d e s :
  createEncryptedProposal t d e s =
    if proposalCount s + 1 <=? UINT256_MAX then
      if block_timestamp e + VOTING_PERIOD <=? UINT256_MAX
      then Ok (tt, created t d (block_timestamp e) s,
               [ProposalCreated (proposalCount s + 1) (block_timestamp e + VOTING_PERIOD)])
      else Revert (Panic 17)
    else Revert (Panic 17).
Proof.
  unfold createEncryptedProposal. run.
  destruct (proposalCount s + 1 <=? UINT256_MAX); simpl; [|done].
  destruct (block_timestamp e + VOTING_PERIOD <=? UINT256_MAX); simpl; done.
Qed.

Lemma requestVoteTallyDecryption_eq p e s :
  requestVoteTallyDecryption p e s =
    if endTime (proposal s p) <=? block_timestamp e then
      match FHE_requestDecryption (fheRequests s)
              [FHE_toBytes32 (encryptedVoteCount (proposal s p));
               FHE_toBytes32 (encryptedCostSum (proposal s p))]
              "decryptVoteTally" with
      | Some (_, o') => Ok (tt, set_fheRequests o' s, [])
      | None => Revert (ExternalRevert "FHE.requestDecryption")
      end
    else Revert (Error "Voting still open").
Proof.
  unfold requestVoteTallyDecryption. run.
  destruct (endTime (proposal s p) <=? block_timestamp e); simpl; [|done].
  destruct (FHE_requestDecryption _ _ _) as [[reqId o']|]; simpl; done.
Qed.

Lemma decryptVoteTally_eq r cleartexts proof e s :
  decryptVoteTally r cleartexts proof e s =
    if FHE_checkSignatures (fheRequests s) r cleartexts proof then
      match abi_decode_uint32_array cleartexts with
      | Some _ => Ok (tt, s, [VoteTallyDecrypted r])
      | None => Revert (ExternalRevert "abi.decode")
      end
    else Revert (ExternalRevert "FHE.checkSignatures").
Proof.
  unfold decryptVoteTally. run.
  destruct (FHE_checkSignatures _ _ _ _); simpl; [|done].
  destruct (abi_decode_uint32_array cleartexts); simpl; done.
Qed.

Lemma depositTokens_eq v e s :
  depositTokens v e s =
    if balanceOf s (msg_sender e) + v <=? UINT256_MAX
    then Ok (tt, set_balance (msg_sender e) (balanceOf s (msg_sender e) + v) s, [])
    else Revert (Panic 17).
Proof.
  unfold depositTokens. run.
  destruct (balanceOf s (msg_sender e) + v <=? UINT256_MAX); simpl; done.
Qed.

Lemma withdrawTokens_eq a e s :
  withdrawTokens a e s =
    if a <=? balanceOf s (msg_sender e) then
      if accepts_transfer e
      then Ok (tt, set_balance (msg_sender e) (balanceOf s (msg_sender e) - a) s,
               [Transfer (msg_sender e) a])
      else Revert (ExternalRevert "transfer")
    else Revert (Error "Insufficient balance").
Proof.
  unfold withdrawTokens. run.
  destruct (a <=? balanceOf s (msg_sender e)); simpl; [|done].
  destruct (accepts_transfer e); simpl; done.
Qed.

End Equations.

(** ** What a vote writes *)

Section Frame.
Context {B : Backend}.

Lemma voted_proposalCount p who c s : proposalCount (voted p who c s) = proposalCount s.
Proof. reflexivity. Qed.

Lemma voted_fheRequests p who c s : fheRequests (voted p who c s) = fheRequests s.
Proof. reflexivity. Qed.

Lemma voted_balanceOf p who c s m : balanceOf (voted p who c s) m = balanceOf s m.
Proof. reflexivity. Qed.

Lemma voted_proposal_eq p who c s :
  proposal (voted p who c s) p =
    mkProposal (id (proposal s p)) (encryptedTitle (proposal s p))
      (encryptedDetails (proposal s p))
      (FHE_add (encryptedVoteCount (proposal s p)) c)
      (FHE_add (encryptedCostSum (proposal s p)) (FHE_mul c c))
      (endTime (proposal s p)).
Proof. unfold voted. by rewrite proposal_set_proposal_eq. Qed.

Lemma voted_proposal_ne p who c s q :
  p ≠ q → proposal (voted p who c s) q = proposal s q.
Proof.
  intros. unfold voted. by rewrite !proposal_set_proposal_ne.
Qed.

Lemma voted_memberVote_eq p who c s :
  memberVote (voted p who c s) p who = mkMemberVote c true.
Proof. unfold voted, memberVote; simpl. by rewrite lookup_insert_eq. Qed.

Lemma voted_memberVote_ne p who c s q n :
  (p, who) ≠ (q, n) → memberVote (voted p who c s) q n = memberVote s q n.
Proof. intros. unfold voted, memberVote; simpl. by rewrite lookup_insert_ne. Qed.

Lemma voted_endTime p who c s q : endTime (proposal (voted p who c s) q) = endTime (proposal s q).
Proof.
  destruct (decide (p = q)) as [->|Hne].
  - by rewrite voted_proposal_eq.
  - by rewrite voted_proposal_ne.
Qed.

(** A vote never clears a vote record. *)
Lemma voted_hasVoted_mono p who c s q n :
  hasVoted (memberVote s q n) = true → hasVoted (memberVote (voted p who c s) q n) = true.
Proof.
  intros Hv. destruct (decide ((p, who) = (q, n))) as [Heq|Hne].
  - inversion Heq; subst. by rewrite voted_memberVote_eq.
  - by rewrite voted_memberVote_ne.
Qed.

(** The outcomes of a vote, read off its equation. *)
Lemma castEncryptedVote_Ok p c e s a s' l :
  castEncryptedVote p c e s = Ok (a, s', l) →
  block_timestamp e < endTime (proposal s p)
  ∧ hasVoted (memberVote s p (msg_sender e)) = false
  ∧ s' = voted p (msg_sender e) c s
  ∧ l = [VoteCast p (msg_sender e)].
Proof.
  rewrite castEncryptedVote_eq.
  destruct (block_timestamp e <? endTime (proposal s p)) eqn:Ht; [|done].
  destruct (hasVoted (memberVote s p (msg_sender e))) eqn:Hv; [done|].
  intros [= <- <- <-]. apply N.ltb_lt in Ht. done.
Qed.

Lemma castEncryptedVote_open p c e s :
  block_timestamp e < endTime (proposal s p) →
  hasVoted (memberVote s p (msg_sender e)) = false →
  castEncryptedVote p c e s =
    Ok (tt, voted p (msg_sender e) c s, [VoteCast p (msg_sender e)]).
Proof.
  intros Ht Hv. rewrite castEncryptedVote_eq.
  apply N.ltb_lt in Ht. by rewrite Ht, Hv.
Qed.

Lemma castEncryptedVote_closed p c e s :
  endTime (proposal s p) ≤ block_timestamp e →
  castEncryptedVote p c e s = Revert (Error "Voting closed").
Proof.
  intros Ht. rewrite castEncryptedVote_eq.
  apply N.ltb_ge in Ht. by rewrite Ht.
Qed.

Lemma castEncryptedVote_again p c e s :
  block_timestamp e < endTime (proposal s p) →
  hasVoted (memberVote s p (msg_sender e)) = true →
  castEncryptedVote p c e s = Revert (Error "Already voted").
Proof.
  intros Ht Hv. rewrite castEncryptedVote_eq.
  apply N.ltb_lt in Ht. by rewrite Ht, Hv.
Qed.

Lemma storage_after_Revert {A} (m : M A) e s f :
  m e s = Revert f → storage_after m e s = s.
Proof. intros Hm. unfold storage_after. by rewrite Hm. Qed.

Lemma storage_after_Ok {A} (m : M A) e s a s' l :
  m e s = Ok (a, s', l) → storage_after m e s = s'.
Proof. intros Hm. unfold storage_after. by rewrite Hm. Qed.

End Frame.

(** ** Invariants of transactions *)

Section Invariants.
Context {B : Backend}.

Lemma created_memberVote t d now s q n :
  memberVote (created t d now s) q n = memberVote s q n.
Proof. reflexivity. Qed.

Lemma created_proposalCount t d now s :
  proposalCount (created t d now s) = proposalCount s + 1.
Proof. reflexivity. Qed.

Lemma created_proposal_eq t d now s :
  proposal (created t d now s) (proposalCount s + 1) =
    mkProposal (proposalCount s + 1) t d (FHE_asEuint32 0) (FHE_asEuint32 0)
               (now + VOTING_PERIOD).
Proof. unfold created. by rewrite proposal_set_proposal_eq. Qed.

Lemma created_proposal_ne t d now s q :
  q ≠ proposalCount s + 1 → proposal (created t d now s) q = proposal s q.
Proof. intros. unfold created. by rewrite proposal_set_proposal_ne. Qed.

(** No transaction clears a vote record. *)
Lemma transact_hasVoted_mono s tx q n :
  hasVoted (memberVote s q n) = true →
  hasVoted (memberVote (transact s tx) q n) = true.
Proof.
  intros Hv. destruct tx as [e c]. unfold transact, storage_after; simpl.
  destruct c; simpl.
  - rewrite createEncryptedProposal_eq. repeat case_match; simplify_eq; done.
  - rewrite castEncryptedVote_eq.
    repeat case_match; simplify_eq; try done. by apply voted_hasVoted_mono.
  - rewrite requestVoteTallyDecryption_eq. repeat case_match; simplify_eq; done.
  - rewrite decryptVoteTally_eq. repeat case_match; simplify_eq; done.
  - rewrite depositTokens_eq. repeat case_match; simplify_eq; done.
  - rewrite withdrawTokens_eq. repeat case_match; simplify_eq; done.
Qed.

Lemma transact_all_hasVoted_mono txs s q n :
  hasVoted (memberVote s q n) = true →
  hasVoted (memberVote (transact_all s txs) q n) = true.
Proof.
  revert s. induction txs as [|tx txs IH]; intros s Hv; simpl; [done|].
  apply IH. by apply transact_hasVoted_mono.
Qed.

(** The counter of proposals never decreases. *)
Lemma transact_proposalCount_mono s tx :
  proposalCount s ≤ proposalCount (transact s tx).
Proof.
  destruct tx as [e c]. unfold transact, storage_after; simpl.
  destruct c; simpl.
  - rewrite createEncryptedProposal_eq.
    repeat case_match; simplify_eq; try done. rewrite created_proposalCount. lia.
  - rewrite castEncryptedVote_eq. repeat case_match; simplify_eq; done.
  - rewrite requestVoteTallyDecryption_eq. repeat case_match; simplify_eq; done.
  - rewrite decryptVoteTally_eq. repeat case_match; simplify_eq; done.
  - rewrite depositTokens_eq. repeat case_match; simplify_eq; done.
  - rewrite withdrawTokens_eq. repeat case_match; simplify_eq; done.
Qed.

Lemma transact_all_proposalCount_mono txs s :
  proposalCount s ≤ proposalCount (transact_all s txs).
Proof.
  revert s. induction txs as [|tx txs IH]; intros s; simpl; [done|].
  etrans; [apply (transact_proposalCount_mono s tx)|apply IH].
Qed.

End Invariants.

(** ** Votes: balances, limits, deadlines and frames *)

Section Votes.
Context {B : Backend}.

(** C10.  A successful [castEncryptedVote] by the sender on proposal [p]
    writes the two accumulators of [p] and the vote record of the pair
    (p, sender), and nothing else: every other proposal slot, the id, title,
    details and deadline of [p], every other vote record, every token
    balance (the sender's among them), and the counter of proposals are as
    before. *)
Theorem C10_castVote_frame p c e s a s' l :
  castEncryptedVote p c e s = Ok (a, s', l) →
  encryptedVoteCount (proposal s' p) = FHE_add (encryptedVoteCount (proposal s p)) c
  ∧ encryptedCostSum (proposal s' p) = FHE_add (encryptedCostSum (proposal s p)) (FHE_mul c c)
  ∧ memberVote s' p (msg_sender e) = mkMemberVote c true
  ∧ (∀ q, q ≠ p → encryptedProposals s' !! q = encryptedProposals s !! q)
  ∧ id (proposal s' p) = id (proposal s p)
  ∧ encryptedTitle (proposal s' p) = encryptedTitle (proposal s p)
  ∧ encryptedDetails (proposal s' p) = encryptedDetails (proposal s p)
  ∧ endTime (proposal s' p) = endTime (proposal s p)
  ∧ (∀ q n, (q, n) ≠ (p, msg_sender e) → memberVotes s' !! (q, n) = memberVotes s !! (q, n))
  ∧ memberTokenBalances s' = memberTokenBalances s
  ∧ (∀ m, balanceOf s' m = balanceOf s m)
  ∧ proposalCount s' = proposalCount s.
Proof.
  intros Hok. apply castEncryptedVote_Ok in Hok as (_ & _ & -> & _).
  rewrite voted_proposal_eq, voted_memberVote_eq; simpl.
  repeat split; try done.
  - intros q Hq. unfold voted; simpl. by rewrite !lookup_insert_ne.
  - intros q n Hq. unfold voted; simpl. by rewrite lookup_insert_ne.
Qed.

(** C1, as the contract has it.  A [castEncryptedVote] that fails leaves the
    sender's balance, the accumulators of the proposal and the sender's vote
    record as they were; one that succeeds leaves the balance of every
    member, the sender included, as it was: the quadratic cost is added to
    the encrypted cost sum of the proposal and is charged to nobody. *)
Theorem C1_castVote_balance p c e s :
  (∀ f, castEncryptedVote p c e s = Revert f →
        let s' := storage_after (castEncryptedVote p c) e s in
        balanceOf s' (msg_sender e) = balanceOf s (msg_sender e)
        ∧ proposal s' p = proposal s p
        ∧ memberVote s' p (msg_sender e) = memberVote s p (msg_sender e))
  ∧ (∀ a s' l, castEncryptedVote p c e s = Ok (a, s', l) →
        (∀ m, balanceOf s' m = balanceOf s m)
        ∧ encryptedCostSum (proposal s' p)
          = FHE_add (encryptedCostSum (proposal s p)) (FHE_mul c c)).
Proof.
  split.
  - intros f Hf. simpl. by rewrite (storage_after_Revert _ _ _ _ Hf).
  - intros a s' l Hok. apply castEncryptedVote_Ok in Hok as (_ & _ & -> & _).
    split; [done|]. by rewrite voted_proposal_eq.
Qed.

(** C7, as the contract has it.  A [castEncryptedVote] on a proposal id that
    was never created, or on a proposal whose deadline has been reached,
    fails with the one message ["Voting closed"], and no accumulator
    changes: an id that was never created reads a deadline of zero, and the
    contract has no other test for it. *)
Theorem C7_castVote_closed_or_unknown p c e s :
  encryptedProposals s !! p = None ∨ endTime (proposal s p) ≤ block_timestamp e →
  castEncryptedVote p c e s = Revert (Error "Voting closed")
  ∧ fails_with (castEncryptedVote p c) e s VotingClosed
  ∧ storage_after (castEncryptedVote p c) e s = s.
Proof.
  intros Hcase.
  assert (endTime (proposal s p) ≤ block_timestamp e) as Hle.
  { destruct Hcase as [Hnone|Hle]; [|done].
    unfold proposal. rewrite Hnone. simpl. lia. }
  pose proof (castEncryptedVote_closed p c e s Hle) as Hrev.
  split; [done|]. split.
  - exists (Error "Voting closed"). done.
  - by apply storage_after_Revert with (f := Error "Voting closed").
Qed.

End Votes.

Section VoteExamples.
Import Clear Scenario.

Lemma C10_castVote_frame_witness :
  castEncryptedVote 1 3 (at_time alice 1002) s_funded
    = Ok (tt, s_voted, [VoteCast 1 alice])
  ∧ encryptedVoteCount (proposal s_voted 1) = 3
  ∧ encryptedCostSum (proposal s_voted 1) = 9
  ∧ balanceOf s_voted alice = 100.
Proof.
  assert (castEncryptedVote 1 3 (at_time alice 1002) s_funded
            = Ok (tt, s_voted, [VoteCast 1 alice])) as Hok by reflexivity.
  pose proof (C10_castVote_frame 1 3 (at_time alice 1002) s_funded _ _ _ Hok)
    as (Hv & Hc & _ & _ & _ & _ & _ & _ & _ & _ & Hb & _).
  split; [exact Hok|]. split; [rewrite Hv; vm_compute; reflexivity|].
  split; [rewrite Hc; vm_compute; reflexivity|].
  rewrite Hb. vm_compute. reflexivity.
Defined.

(** C1, the claim as it was written, fails: Alice holds 100 tokens and casts
    3 votes; the call succeeds and she still holds 100, not 100 - 9. *)
Lemma C1_counterexample :
  balanceOf s_funded alice = 100
  ∧ castEncryptedVote 1 3 (at_time alice 1002) s_funded
      = Ok (tt, s_voted, [VoteCast 1 alice])
  ∧ balanceOf s_voted alice = 100
  ∧ balanceOf s_voted alice ≠ balanceOf s_funded alice - 3 * 3.
Proof. repeat split; try reflexivity. vm_compute. discriminate. Qed.

Lemma C1_castVote_balance_witness :
  (castEncryptedVote 1 3 (at_time alice 1002) s_funded
     = Ok (tt, s_voted, [VoteCast 1 alice])
   ∧ balanceOf s_voted alice = balanceOf s_funded alice)
  ∧ (castEncryptedVote 1 5 (at_time alice 1003) s_voted = Revert (Error "Already voted")
     ∧ proposal (storage_after (castEncryptedVote 1 5) (at_time alice 1003) s_voted) 1
       = proposal s_voted 1).
Proof.
  assert (castEncryptedVote 1 3 (at_time alice 1002) s_funded
            = Ok (tt, s_voted, [VoteCast 1 alice])) as Hok by reflexivity.
  assert (castEncryptedVote 1 5 (at_time alice 1003) s_voted
            = Revert (Error "Already voted")) as Hrev by reflexivity.
  split.
  - split; [exact Hok|].
    exact (proj1 (proj2 (C1_castVote_balance 1 3 (at_time alice 1002) s_funded)
                   _ _ _ Hok) alice).
  - split; [exact Hrev|].
    exact (proj1 (proj2 (proj1 (C1_castVote_balance 1 5 (at_time alice 1003) s_voted)
                   _ Hrev))).
Defined.

(** The modifier [sufficientTokens] would have refused a member without
    tokens; [castEncryptedVote] does not carry it, and Bob, who holds
    nothing, votes. *)
Example castEncryptedVote_without_tokens :
  balanceOf s_funded bob = 0
  ∧ succeeds (castEncryptedVote 1 3) (at_time bob 1002) s_funded
  ∧ fails_with (sufficientTokens 3 (castEncryptedVote 1 3)) (at_time bob 1002) s_funded
      InsufficientBalance.
Proof.
  split; [vm_compute; reflexivity|]. split.
  - eexists _, _, _. reflexivity.
  - eexists. split; reflexivity.
Qed.

(** C5, at the failing input: 101 votes exceed [MAX_VOTES_PER_PROPOSAL], and
    the vote is accepted and counted. *)
Lemma C5_vote_above_limit_accepted :
  MAX_VOTES_PER_PROPOSAL < 101
  ∧ castEncryptedVote 1 101 (at_time alice 1002) s_funded
      = Ok (tt, voted 1 alice 101 s_funded, [VoteCast 1 alice])
  ∧ decrypt (encryptedVoteCount (proposal (voted 1 alice 101 s_funded) 1)) = 101
  ∧ decrypt (encryptedCostSum (proposal (voted 1 alice 101 s_funded) 1)) = 10201
  ∧ hasVoted (memberVote (voted 1 alice 101 s_funded) 1 alice) = true.
Proof. repeat split; reflexivity. Qed.

(** C7, the claim as it was written, fails: proposal 5 was never created,
    and the vote on it fails with ["Voting closed"], which is not
    [ProposalNotFound]. *)
Lemma C7_counterexample :
  encryptedProposals genesis !! 5 = None
  ∧ castEncryptedVote 5 3 (at_time alice 1) genesis = Revert (Error "Voting closed")
  ∧ error_kind (Error "Voting closed") = Some VotingClosed
  ∧ ¬ fails_with (castEncryptedVote 5 3) (at_time alice 1) genesis ProposalNotFound.
Proof.
  assert (castEncryptedVote 5 3 (at_time alice 1) genesis
            = Revert (Error "Voting closed")) as Hrev by reflexivity.
  split; [reflexivity|]. split; [exact Hrev|]. split; [reflexivity|].
  intros (f & Hf & Hk). rewrite Hrev in Hf. injection Hf as <-. discriminate Hk.
Qed.

Lemma C7_castVote_closed_or_unknown_witness :
  encryptedProposals genesis !! 5 = None
  ∧ castEncryptedVote 5 3 (at_time alice 1) genesis = Revert (Error "Voting closed")
  ∧ endTime (proposal s_voted 1) ≤ 605800
  ∧ castEncryptedVote 1 3 (at_time bob 605800) s_voted = Revert (Error "Voting closed").
Proof.
  assert (encryptedProposals genesis !! 5 = None) as Hnone by reflexivity.
  assert (endTime (proposal s_voted 1) ≤ block_timestamp (at_time bob 605800)) as Hle
    by (vm_compute; discriminate).
  split; [exact Hnone|].
  split; [exact (proj1 (C7_castVote_closed_or_unknown 5 3 (at_time alice 1) genesis
                          (or_introl Hnone)))|].
  split; [exact Hle|].
  exact (proj1 (C7_castVote_closed_or_unknown 1 3 (at_time bob 605800) s_voted
                  (or_intror Hle))).
Defined.

End VoteExamples.

(** ** One vote for each member *)

Section Once.
Context {B : Backend}.

(** C3, as the contract has it.  A vote record is written once and never
    cleared: when a [castEncryptedVote] of a member on a proposal has
    succeeded, the record was unset before it, it is set after it and after
    any transactions that follow, and every later [castEncryptedVote] of
    that member on that proposal fails and changes nothing.  The deadline
    is tested before the vote record, so the later call fails with
    ["Already voted"] while the proposal is open and with ["Voting closed"]
    once its deadline has been reached. *)
Theorem C3_no_second_vote p c e s a s1 l txs c' e' :
  castEncryptedVote p c e s = Ok (a, s1, l) →
  msg_sender e' = msg_sender e →
  let s2 := transact_all s1 txs in
  let open := block_timestamp e' <? endTime (proposal s2 p) in
  hasVoted (memberVote s p (msg_sender e)) = false
  ∧ hasVoted (memberVote s1 p (msg_sender e)) = true
  ∧ hasVoted (memberVote s2 p (msg_sender e)) = true
  ∧ castEncryptedVote p c' e' s2
      = Revert (Error (if open then "Already voted" else "Voting closed"))
  ∧ fails_with (castEncryptedVote p c') e' s2 (if open then AlreadyVoted else VotingClosed)
  ∧ storage_after (castEncryptedVote p c') e' s2 = s2.
Proof.
  intros Hok Hsame s2 open.
  apply castEncryptedVote_Ok in Hok as (_ & Hfresh & -> & _).
  assert (hasVoted (memberVote (voted p (msg_sender e) c s) p (msg_sender e)) = true)
    as Hset by (by rewrite voted_memberVote_eq).
  assert (hasVoted (memberVote s2 p (msg_sender e)) = true) as Hkept
    by (by apply transact_all_hasVoted_mono).
  assert (castEncryptedVote p c' e' s2
            = Revert (Error (if open then "Already voted" else "Voting closed"))) as Hrev.
  { rewrite castEncryptedVote_eq. subst open.
    destruct (block_timestamp e' <? endTime (proposal s2 p)); [|done].
    by rewrite Hsame, Hkept. }
  repeat split; try done.
  - eexists. split; [exact Hrev|]. by destruct open.
  - by rewrite (storage_after_Revert _ _ _ _ Hrev).
Qed.

End Once.

Section OnceExamples.
Import Clear Scenario.

(** C3, the claim as it was written, fails: Alice has voted on proposal 1;
    her second vote, cast at the deadline, fails with ["Voting closed"], not
    with [AlreadyVoted]. *)
Lemma C3_counterexample :
  castEncryptedVote 1 3 (at_time alice 1002) s_funded
    = Ok (tt, s_voted, [VoteCast 1 alice])
  ∧ castEncryptedVote 1 3 (at_time alice deadline) s_voted
    = Revert (Error "Voting closed")
  ∧ ¬ fails_with (castEncryptedVote 1 3) (at_time alice deadline) s_voted AlreadyVoted.
Proof.
  assert (castEncryptedVote 1 3 (at_time alice deadline) s_voted
            = Revert (Error "Voting closed")) as Hrev by reflexivity.
  split; [reflexivity|]. split; [exact Hrev|].
  intros (f & Hf & Hk). rewrite Hrev in Hf. injection Hf as <-. discriminate Hk.
Qed.

Lemma C3_no_second_vote_witness :
  castEncryptedVote 1 3 (at_time alice 1002) s_funded
    = Ok (tt, s_voted, [VoteCast 1 alice])
  ∧ hasVoted (memberVote s_two 1 alice) = true
  ∧ castEncryptedVote 1 4 (at_time alice 1005) s_two = Revert (Error "Already voted")
  ∧ storage_after (castEncryptedVote 1 4) (at_time alice 1005) s_two = s_two.
Proof.
  assert (castEncryptedVote 1 3 (at_time alice 1002) s_funded
            = Ok (tt, s_voted, [VoteCast 1 alice])) as Hok by reflexivity.
  pose proof (C3_no_second_vote 1 3 (at_time alice 1002) s_funded _ _ _
                [(at_time alice 1003, CreateEncryptedProposal 33 44);
                 (at_time bob 1004, CastEncryptedVote 2 3)]
                4 (at_time alice 1005) Hok eq_refl)
    as (_ & _ & Hkept & Hrev & _ & Hsame).
  split; [exact Hok|]. split; [exact Hkept|]. split; [exact Hrev|]. exact Hsame.
Defined.

End OnceExamples.

(** ** The tally of a run of votes *)

Section TallyProofs.
Context {B : Backend} {H : Homomorphic B}.

Lemma UINT32_MOD_neq_0 : UINT32_MOD ≠ 0.
Proof. discriminate. Qed.

Lemma sum_votes_cons v votes : sum_votes (v :: votes) = decrypt v.2 + sum_votes votes.
Proof. reflexivity. Qed.

Lemma sum_costs_cons v votes :
  sum_costs (v :: votes) = decrypt v.2 * decrypt v.2 + sum_costs votes.
Proof. reflexivity. Qed.



(** A run in which every vote is accepted adds, behind the encryption, the
    vote counts and their squares to the two accumulators, in 32-bit
    arithmetic. *)
Lemma cast_all_decrypt p votes : ∀ s s',
  cast_all p votes s = Some s' →
  decrypt (encryptedVoteCount (proposal s' p))
    = (decrypt (encryptedVoteCount (proposal s p)) + sum_votes votes) mod UINT32_MOD
  ∧ decrypt (encryptedCostSum (proposal s' p))
    = (decrypt (encryptedCostSum (proposal s p)) + sum_costs votes) mod UINT32_MOD.
Proof.
  induction votes as [|[e c] rest IH]; intros s s' Hrun; simpl in Hrun.
  - injection Hrun as <-. simpl.
    rewrite !N.add_0_r, !N.mod_small; [done|apply decrypt_range..].
  - destruct (castEncryptedVote p c e s) as [[[[] s1] l1]|f] eqn:Hvote; [|done].
    apply castEncryptedVote_Ok in Hvote as (_ & _ & -> & _).
    apply IH in Hrun as [Hv Hc].
    rewrite voted_proposal_eq in Hv, Hc; simpl in Hv, Hc.
    rewrite Hv, Hc, sum_votes_cons, sum_costs_cons; simpl.
    rewrite !decrypt_add, decrypt_mul.
    rewrite N.Div0.add_mod_idemp_r, !N.Div0.add_mod_idemp_l.
    split; f_equal; lia.
Qed.

End TallyProofs.

Section Admission.
Context {B : Backend}.


Lemma admissible_cast_all p votes : ∀ s,
  admissible p votes s → ∃ s', cast_all p votes s = Some s'.
Proof.
  induction votes as [|[e c] rest IH]; intros s [Hall Hnd]; simpl.
  - by eexists.
  - apply Forall_cons in Hall as [[Ht Hfresh] Hall]. simpl in Ht, Hfresh, Hnd.
    apply NoDup_cons in Hnd as [Hnotin Hnd].
    rewrite (castEncryptedVote_open p c e s Ht Hfresh).
    apply IH. split; [|done].
    rewrite Forall_forall in Hall. apply Forall_forall.
    intros [e1 c1] Hin. specialize (Hall _ Hin) as [Ht1 Hf1]. simpl in *.
    rewrite voted_endTime. split; [done|].
    rewrite voted_memberVote_ne; [done|].
    intros [= Heq]. apply Hnotin. rewrite Heq.
    apply list_elem_of_In, in_map_iff. exists (e1, c1).
    split; [done|by apply list_elem_of_In].
Qed.


End Admission.

Section TallyClaim.
Context {B : Backend} {H : Homomorphic B}.


(** On a proposal that has just been created the accumulators decrypt to
    zero, so the tally of a run is the two sums themselves, modulo 2^32. *)
Corollary tally_of_new_proposal t d e s0 a s l votes s' :
  createEncryptedProposal t d e s0 = Ok (a, s, l) →
  cast_all (proposalCount s) votes s = Some s' →
  decrypt (encryptedVoteCount (proposal s' (proposalCount s)))
    = sum_votes votes mod UINT32_MOD
  ∧ decrypt (encryptedCostSum (proposal s' (proposalCount s)))
    = sum_costs votes mod UINT32_MOD.
Proof.
  rewrite createEncryptedProposal_eq. intros Hnew Hrun.
  repeat case_match; simplify_eq.
  apply cast_all_decrypt in Hrun as [Hv Hc].
  rewrite created_proposalCount in Hv, Hc |- *.
  rewrite created_proposal_eq in Hv, Hc; simpl in Hv, Hc.
  rewrite decrypt_asEuint32 in Hv, Hc.
  rewrite N.Div0.mod_0_l in Hv, Hc. done.
Qed.

End TallyClaim.

Section TallyExamples.
Import Clear Scenario.



Lemma sum_costs_crowd_from first count :
  sum_costs (crowd_from first count) = N.of_nat count * 10000.
Proof.
  revert first. induction count as [|count IH]; intros first; [done|].
  change (crowd_from first (S count))
    with ((at_time (N.of_nat first) 1002, 100 : N) :: crowd_from (S first) count).
  rewrite (sum_costs_cons (B := backend)), IH.
  cbv [decrypt clear_homomorphic snd].
  change (N.modulo 100 UINT32_MOD) with 100. lia.
Qed.

Lemma crowd_admissible count : admissible 1 (crowd count) s_created.
Proof.
  unfold crowd, crowd_from. split.
  - apply Forall_forall. intros v Hin.
    apply list_elem_of_In, in_map_iff in Hin as (i & <- & _). simpl.
    split; [reflexivity|].
    unfold memberVote. change (memberVotes s_created) with (∅ : gmap (N * N) MemberVote).
    by rewrite lookup_empty.
  - rewrite map_map. simpl.
    apply (NoDup_fmap_2 N.of_nat), NoDup_seq.
Qed.

(** The wrap-around does not need a vote above [MAX_VOTES_PER_PROPOSAL]:
    429497 members casting 100 votes each are all accepted, the squares sum
    to 4294970000, and the cost sum decrypts to 2704. *)
Remark tally_wraps_below_the_limit :
  Forall (λ v : Env * N, decrypt v.2 ≤ MAX_VOTES_PER_PROPOSAL) (crowd 429497)
  ∧ sum_costs (crowd 429497) = 4294970000
  ∧ ∃ s', cast_all 1 (crowd 429497) s_created = Some s'
      ∧ decrypt (encryptedCostSum (proposal s' 1)) = 2704.
Proof.
  assert (sum_costs (crowd 429497) = 4294970000) as Hsum.
  { unfold crowd. rewrite sum_costs_crowd_from, N2Nat.id. reflexivity. }
  split; [|split; [exact Hsum|]].
  - apply Forall_forall. intros v Hin.
    apply list_elem_of_In, in_map_iff in Hin as (i & <- & _). simpl.
    vm_compute. discriminate.
  - destruct (admissible_cast_all (B := backend) 1 (crowd 429497) s_created
                (crowd_admissible _)) as [s' Hrun].
    exists s'. split; [exact Hrun|].
    apply cast_all_decrypt in Hrun as [_ Hc]. rewrite Hc, Hsum. reflexivity.
Qed.

End TallyExamples.

(** ** Proposals, deposits and decryption *)

Section Lifecycle.
Context {B : Backend}.

(** A call that fits the range of [uint256] succeeds, and what it leaves. *)
Lemma createEncryptedProposal_succeeds t d e s :
  proposalCount s < UINT256_MAX →
  block_timestamp e + VOTING_PERIOD ≤ UINT256_MAX →
  let newId := proposalCount s + 1 in
  let deadline := block_timestamp e + VOTING_PERIOD in
  ∃ s', createEncryptedProposal t d e s = Ok (tt, s', [ProposalCreated newId deadline])
    ∧ proposalCount s' = newId
    ∧ proposal s' newId
      = mkProposal newId t d (FHE_asEuint32 0) (FHE_asEuint32 0) deadline
    ∧ (∀ q, q ≠ newId → proposal s' q = proposal s q)
    ∧ ∀ txs t2 d2 e2 a2 s2 l2,
        createEncryptedProposal t2 d2 e2 (transact_all s' txs) = Ok (a2, s2, l2) →
        ∃ laterId laterDeadline,
          l2 = [ProposalCreated laterId laterDeadline]
          ∧ proposalCount s2 = laterId
          ∧ newId < laterId.
Proof.
  intros Hcount Htime newId deadline.
  exists (created t d (block_timestamp e) s).
  assert ((proposalCount s + 1 <=? UINT256_MAX) = true) as Hc
    by (apply N.leb_le; unfold UINT256_MAX in *; lia).
  assert ((block_timestamp e + VOTING_PERIOD <=? UINT256_MAX) = true) as Ht
    by (by apply N.leb_le).
  split; [by rewrite createEncryptedProposal_eq, Hc, Ht|].
  split; [done|]. split; [apply created_proposal_eq|].
  split; [intros q Hq; by apply created_proposal_ne|].
  intros txs t2 d2 e2 a2 s2 l2. rewrite createEncryptedProposal_eq.
  pose proof (transact_all_proposalCount_mono txs (created t d (block_timestamp e) s))
    as Hmono.
  rewrite created_proposalCount in Hmono.
  repeat case_match; intros; simplify_eq.
  eexists _, _. split; [done|]. rewrite created_proposalCount.
  split; [done|]. subst newId. lia.
Qed.

(** A transaction raises the counter of proposals by one at most. *)
Lemma transact_proposalCount_step s tx :
  proposalCount (transact s tx) ≤ proposalCount s + 1.
Proof.
  destruct tx as [e c]. unfold transact, storage_after; simpl.
  destruct c; simpl.
  - rewrite createEncryptedProposal_eq.
    repeat case_match; simplify_eq; try lia. rewrite created_proposalCount. lia.
  - rewrite castEncryptedVote_eq. repeat case_match; simplify_eq; simpl; lia.
  - rewrite requestVoteTallyDecryption_eq. repeat case_match; simplify_eq; simpl; lia.
  - rewrite decryptVoteTally_eq. repeat case_match; simplify_eq; simpl; lia.
  - rewrite depositTokens_eq. repeat case_match; simplify_eq; simpl; lia.
  - rewrite withdrawTokens_eq. repeat case_match; simplify_eq; simpl; lia.
Qed.

Lemma transact_all_proposalCount_bound txs : ∀ s,
  proposalCount (transact_all s txs) ≤ proposalCount s + N.of_nat (length txs).
Proof.
  induction txs as [|tx rest IH]; intros s.
  - simpl. lia.
  - change (transact_all s (tx :: rest)) with (transact_all (transact s tx) rest).
    pose proof (transact_proposalCount_step s tx) as Hstep.
    specialize (IH (transact s tx)).
    change (length (tx :: rest)) with (S (length rest)). lia.
Qed.

(** C8.  Every [createEncryptedProposal] call succeeds: in every state the
    contract reaches from its deployment in fewer than 2^256 - 1
    transactions, at every time below 2^64, whatever the two ciphertexts
    and whoever the sender.  It assigns the next id, one more than the
    counter, stores under it a proposal with both accumulators set to the
    encryption of zero and the deadline set to the time of the call plus
    [VOTING_PERIOD], and announces both in [ProposalCreated]; every proposal
    created after it, whatever transactions come between, gets a strictly
    greater id. *)
Theorem C8_createProposal o history t d e :
  let s := transact_all (initial o) history in
  N.of_nat (length history) < UINT256_MAX →
  block_timestamp e < 2 ^ 64 →
  let newId := proposalCount s + 1 in
  let deadline := block_timestamp e + VOTING_PERIOD in
  ∃ s', createEncryptedProposal t d e s = Ok (tt, s', [ProposalCreated newId deadline])
    ∧ proposalCount s' = newId
    ∧ proposal s' newId
      = mkProposal newId t d (FHE_asEuint32 0) (FHE_asEuint32 0) deadline
    ∧ (∀ q, q ≠ newId → proposal s' q = proposal s q)
    ∧ ∀ txs t2 d2 e2 a2 s2 l2,
        createEncryptedProposal t2 d2 e2 (transact_all s' txs) = Ok (a2, s2, l2) →
        ∃ laterId laterDeadline,
          l2 = [ProposalCreated laterId laterDeadline]
          ∧ proposalCount s2 = laterId
          ∧ newId < laterId.
Proof.
  intros s Hshort Hnow.
  apply createEncryptedProposal_succeeds.
  - pose proof (transact_all_proposalCount_bound history (initial o)) as Hbound.
    fold s in Hbound. change (proposalCount (initial o)) with 0 in Hbound. lia.
  - assert (2 ^ 64 + VOTING_PERIOD ≤ UINT256_MAX) as Hroom
      by (vm_compute; discriminate).
    lia.
Qed.

(** C9.  For an amount greater than zero, [depositTokens] either succeeds
    and raises the balance of the sender by exactly the amount, leaving every
    other balance as it was, or, when the sum exceeds the range of
    [uint256], fails with an arithmetic panic and leaves the balance as it
    was, not wrapped; it has no other failure. *)
Theorem C9_deposit amount e s :
  0 < amount →
  let who := msg_sender e in
  (balanceOf s who + amount ≤ UINT256_MAX →
     ∃ s', depositTokens amount e s = Ok (tt, s', [])
       ∧ balanceOf s' who = balanceOf s who + amount
       ∧ balanceOf s who < balanceOf s' who
       ∧ ∀ m, m ≠ who → balanceOf s' m = balanceOf s m)
  ∧ (UINT256_MAX < balanceOf s who + amount →
     depositTokens amount e s = Revert (Panic 17)
     ∧ fails_with (depositTokens amount) e s Overflow
     ∧ balanceOf (storage_after (depositTokens amount) e s) who = balanceOf s who)
  ∧ (∀ f, depositTokens amount e s = Revert f →
     error_kind f = Some Overflow ∧ UINT256_MAX < balanceOf s who + amount).
Proof.
  intros Hpos who. rewrite depositTokens_eq. fold who.
  destruct (balanceOf s who + amount <=? UINT256_MAX) eqn:Hfit.
  - apply N.leb_le in Hfit. split; [|split].
    + intros _. eexists. split; [done|].
      rewrite balanceOf_set_balance_eq. split; [done|]. split; [lia|].
      intros m Hm. by rewrite balanceOf_set_balance_ne.
    + intros Hover. lia.
    + intros f [=].
  - apply N.leb_gt in Hfit. split; [|split].
    + intros Hle. lia.
    + intros _. split; [done|]. split.
      * exists (Panic 17). rewrite depositTokens_eq. fold who.
        apply N.leb_gt in Hfit. by rewrite Hfit.
      * unfold storage_after. rewrite depositTokens_eq. fold who.
        apply N.leb_gt in Hfit. by rewrite Hfit.
    + intros f [= <-]. done.
Qed.

(** Before the deadline a decryption request is refused, and nothing
    changes. *)
Lemma requestVoteTallyDecryption_still_open p e s :
  block_timestamp e < endTime (proposal s p) →
  requestVoteTallyDecryption p e s = Revert (Error "Voting still open")
  ∧ fails_with (requestVoteTallyDecryption p) e s VotingStillOpen
  ∧ storage_after (requestVoteTallyDecryption p) e s = s.
Proof.
  intros Hopen.
  assert (requestVoteTallyDecryption p e s = Revert (Error "Voting still open")) as Hrev.
  { rewrite requestVoteTallyDecryption_eq. apply N.leb_gt in Hopen. by rewrite Hopen. }
  split; [done|]. split.
  - eexists. split; [exact Hrev|done].
  - by rewrite (storage_after_Revert _ _ _ _ Hrev).
Qed.

(** The contract keeps no record of a request: a request that goes through
    was made at or after the deadline and leaves every variable of the
    contract as it was, the id the library answers being dropped; and a
    request that fails fails on the deadline or in the library, never for a
    request that is pending. *)
Lemma requestVoteTallyDecryption_keeps_no_record p e s :
  (∀ a s' l, requestVoteTallyDecryption p e s = Ok (a, s', l) →
     endTime (proposal s p) ≤ block_timestamp e
     ∧ proposalCount s' = proposalCount s
     ∧ encryptedProposals s' = encryptedProposals s
     ∧ memberVotes s' = memberVotes s
     ∧ memberTokenBalances s' = memberTokenBalances s
     ∧ l = [])
  ∧ (∀ f, requestVoteTallyDecryption p e s = Revert f →
     (f = Error "Voting still open" ∨ f = ExternalRevert "FHE.requestDecryption")
     ∧ error_kind f ≠ Some RequestAlreadyPending).
Proof.
  rewrite requestVoteTallyDecryption_eq.
  destruct (endTime (proposal s p) <=? block_timestamp e) eqn:Hclosed.
  - apply N.leb_le in Hclosed.
    destruct (FHE_requestDecryption _ _ _) as [[reqId o']|]; split.
    + intros a s' l [= <- <- <-]. done.
    + intros f [=].
    + intros a s' l [=].
    + intros f [= <-]. split; [by right|done].
  - split.
    + intros a s' l [=].
    + intros f [= <-]. split; [by left|done].
Qed.

(** The callback for an answer whose proof does not verify fails, and the
    storage is as before. *)
Lemma decryptVoteTally_invalid_proof r cleartexts proof e s :
  FHE_checkSignatures (fheRequests s) r cleartexts proof = false →
  fails_with (decryptVoteTally r cleartexts proof) e s InvalidProof
  ∧ storage_after (decryptVoteTally r cleartexts proof) e s = s.
Proof.
  intros Hbad. split.
  - eexists. rewrite decryptVoteTally_eq, Hbad. done.
  - unfold storage_after. by rewrite decryptVoteTally_eq, Hbad.
Qed.

(** The callback never writes: whatever the answer, the storage after it is
    the storage before it, and on success the one trace of the call is the
    event [VoteTallyDecrypted], which carries the request id in the place of
    the proposal id. *)
Lemma decryptVoteTally_writes_nothing r cleartexts proof e s :
  storage_after (decryptVoteTally r cleartexts proof) e s = s
  ∧ ∀ a s' l, decryptVoteTally r cleartexts proof e s = Ok (a, s', l) →
      s' = s ∧ l = [VoteTallyDecrypted r].
Proof.
  unfold storage_after. rewrite decryptVoteTally_eq.
  repeat case_match; simplify_eq; split; try done; intros; by simplify_eq.
Qed.

End Lifecycle.

Section LifecycleExamples.
Import Clear Scenario.

Lemma C8_createProposal_witness :
  N.of_nat (length [(at_time alice 1000, CreateEncryptedProposal 11 22)]) < UINT256_MAX
  ∧ 1003 < 2 ^ 64
  ∧ ∃ s', createEncryptedProposal 33 44 (at_time alice 1003) s_created
            = Ok (tt, s', [ProposalCreated 2 605803])
      ∧ proposalCount s' = 2
      ∧ proposal s' 2 = mkProposal 2 33 44 0 0 605803
      ∧ proposal s' 1 = proposal s_created 1.
Proof.
  pose (history := [(at_time alice 1000, CreateEncryptedProposal 11 22)]).
  assert (N.of_nat (length history) < UINT256_MAX) as Hshort by reflexivity.
  assert (block_timestamp (at_time alice 1003) < 2 ^ 64) as Hnow by reflexivity.
  split; [exact Hshort|]. split; [exact Hnow|].
  destruct (C8_createProposal (fheRequests genesis) history 33 44 (at_time alice 1003)
              Hshort Hnow) as (s' & Hok & Hid & Hnew & Hold & _).
  exists s'. split; [exact Hok|]. split; [exact Hid|]. split; [exact Hnew|].
  apply Hold. discriminate.
Defined.

Lemma C9_deposit_witness :
  0 < 100
  ∧ balanceOf s_created alice + 100 ≤ UINT256_MAX
  ∧ (∃ s', depositTokens 100 (at_time alice 1001) s_created = Ok (tt, s', [])
       ∧ balanceOf s' alice = 100)
  ∧ UINT256_MAX < balanceOf s_funded alice + UINT256_MAX
  ∧ depositTokens UINT256_MAX (at_time alice 1002) s_funded = Revert (Panic 17)
  ∧ balanceOf (storage_after (depositTokens UINT256_MAX) (at_time alice 1002) s_funded)
      alice = 100.
Proof.
  assert (0 < 100) as Hpos by reflexivity.
  assert (0 < UINT256_MAX) as Hpos' by reflexivity.
  assert (balanceOf s_created (msg_sender (at_time alice 1001)) + 100 ≤ UINT256_MAX)
    as Hfit by (vm_compute; discriminate).
  assert (UINT256_MAX < balanceOf s_funded (msg_sender (at_time alice 1002)) + UINT256_MAX)
    as Hover by reflexivity.
  split; [exact Hpos|]. split; [exact Hfit|].
  split.
  { destruct (proj1 (C9_deposit 100 (at_time alice 1001) s_created Hpos) Hfit)
      as (s' & Hok & Hbal & _).
    exists s'. split; [exact Hok|]. etrans; [exact Hbal|reflexivity]. }
  split; [exact Hover|].
  destruct (proj1 (proj2 (C9_deposit UINT256_MAX (at_time alice 1002) s_funded Hpos'))
              Hover) as (Hrev & _ & Hkept).
  split; [exact Hrev|]. etrans; [exact Hkept|reflexivity].
Defined.

(** The contract has no test on the amount: a deposit of nothing succeeds
    and changes no balance. *)
Example depositTokens_zero :
  succeeds (depositTokens 0) (at_time alice 1002) s_funded
  ∧ balanceOf (storage_after (depositTokens 0) (at_time alice 1002) s_funded) alice
    = balanceOf s_funded alice.
Proof. split; [eexists _, _, _|]; reflexivity. Qed.

(** C6, at the failing input.  Decryption of the closed proposal 2 is
    requested and, nothing having answered, requested again.  The first
    request leaves every variable of the contract as it was: no request id
    is recorded, nothing is marked as pending.  The second request takes
    the path of the first and is not refused with [RequestAlreadyPending]. *)
Lemma C6_second_request_not_refused :
  requestVoteTallyDecryption 2 (at_time bob 700000) s_two = Ok (tt, s_requested, [])
  ∧ proposalCount s_requested = proposalCount s_two
  ∧ encryptedProposals s_requested = encryptedProposals s_two
  ∧ memberVotes s_requested = memberVotes s_two
  ∧ memberTokenBalances s_requested = memberTokenBalances s_two
  ∧ requestVoteTallyDecryption 2 (at_time bob 700001) s_requested
    = Ok (tt, set_fheRequests [[3; 9]; [3; 9]] s_requested, [])
  ∧ ¬ fails_with (requestVoteTallyDecryption 2) (at_time bob 700001) s_requested
        RequestAlreadyPending.
Proof.
  assert (requestVoteTallyDecryption 2 (at_time bob 700001) s_requested
            = Ok (tt, set_fheRequests [[3; 9]; [3; 9]] s_requested, [])) as Hok
    by reflexivity.
  do 5 (split; [reflexivity|]). split; [exact Hok|].
  intros (f & Hf & Hk). rewrite Hok in Hf. discriminate Hf.
Qed.

(** Before the deadline of proposal 2 the request is refused. *)
Example requestVoteTallyDecryption_too_early :
  fails_with (requestVoteTallyDecryption 2) (at_time bob 1005) s_two VotingStillOpen.
Proof. eexists. split; reflexivity. Qed.

(** C4, at the failing input.  Request 0 asked for the tally of proposal 2,
    whose accumulators stand for 3 votes at cost 9.  The answer carries
    these two values and a proof that verifies; the callback succeeds,
    writes nothing, and announces the decryption of proposal 0, the request
    id, a proposal that does not exist. *)
Lemma C4_tally_not_recorded :
  fheRequests s_requested
    = [[FHE_toBytes32 (encryptedVoteCount (proposal s_requested 2));
        FHE_toBytes32 (encryptedCostSum (proposal s_requested 2))]]
  ∧ FHE_checkSignatures (fheRequests s_requested) 0 (encode_uint32_array [3; 9]) kms_proof
    = true
  ∧ abi_decode_uint32_array (encode_uint32_array [3; 9]) = Some [3; 9]
  ∧ decryptVoteTally 0 (encode_uint32_array [3; 9]) kms_proof (at_time bob 700001)
      s_requested
    = Ok (tt, s_requested, [VoteTallyDecrypted 0])
  ∧ encryptedProposals s_requested !! 0 = None.
Proof. repeat split; reflexivity. Qed.

(** A forged proof is refused. *)
Example decryptVoteTally_forged_proof :
  fails_with (decryptVoteTally 0 (encode_uint32_array [3; 9]) [Byte.x00])
    (at_time bob 700001) s_requested InvalidProof.
Proof. eexists. split; reflexivity. Qed.

End LifecycleExamples.

(** ** Token accounts *)

Section Accounts.
Context {B : Backend}.

Lemma withdrawTokens_cases a e s :
  let who := msg_sender e in
  (balanceOf s who < a ∧ withdrawTokens a e s = Revert (Error "Insufficient balance"))
  ∨ (a ≤ balanceOf s who ∧ accepts_transfer e = false
     ∧ withdrawTokens a e s = Revert (ExternalRevert "transfer"))
  ∨ (a ≤ balanceOf s who ∧ accepts_transfer e = true
     ∧ withdrawTokens a e s
       = Ok (tt, set_balance who (balanceOf s who - a) s, [Transfer who a])).
Proof.
  intros who. rewrite withdrawTokens_eq. fold who.
  destruct (a <=? balanceOf s who) eqn:Hle.
  - apply N.leb_le in Hle. destruct (accepts_transfer e); auto.
  - apply N.leb_gt in Hle. auto.
Qed.

(** X1.  [withdrawTokens] of more than the sender holds fails with
    ["Insufficient balance"]; of an amount the sender holds, it pays exactly
    that amount to the sender and lowers the sender's balance by exactly
    that amount, touching no other balance, no proposal and no vote record;
    and whenever the call fails, be it on the balance or because the
    transfer is refused, the balance stays as it was.  It never fails with
    an arithmetic panic. *)
Theorem X1_withdraw a e s :
  let who := msg_sender e in
  (balanceOf s who < a →
     fails_with (withdrawTokens a) e s InsufficientBalance)
  ∧ (a ≤ balanceOf s who → accepts_transfer e = true →
     ∃ s', withdrawTokens a e s = Ok (tt, s', [Transfer who a])
       ∧ balanceOf s' who + a = balanceOf s who
       ∧ (∀ m, m ≠ who → balanceOf s' m = balanceOf s m)
       ∧ encryptedProposals s' = encryptedProposals s
       ∧ memberVotes s' = memberVotes s
       ∧ proposalCount s' = proposalCount s)
  ∧ (∀ f, withdrawTokens a e s = Revert f →
     f ≠ Panic 17
     ∧ (balanceOf s who < a ∨ accepts_transfer e = false)
     ∧ storage_after (withdrawTokens a) e s = s).
Proof.
  pose proof (withdrawTokens_cases a e s) as Hcases. cbv zeta in Hcases.
  intros who. subst who.
  destruct Hcases as [[Hlt Hr]|[(Hle & Hno & Hr)|(Hle & Hyes & Hr)]].
  - split; [|split].
    + intros _. eexists. split; [exact Hr|done].
    + intros Hle. lia.
    + intros f Hf. rewrite Hr in Hf. injection Hf as <-.
      split; [done|]. split; [by left|].
      by apply storage_after_Revert with (f := Error "Insufficient balance").
  - split; [|split].
    + intros Hlt. lia.
    + intros _ Hyes. congruence.
    + intros f Hf. rewrite Hr in Hf. injection Hf as <-.
      split; [done|]. split; [by right|].
      by apply storage_after_Revert with (f := ExternalRevert "transfer").
  - split; [|split].
    + intros Hlt. lia.
    + intros _ _. eexists. split; [exact Hr|].
      rewrite balanceOf_set_balance_eq. split; [lia|].
      split; [|done]. intros m Hm. by rewrite balanceOf_set_balance_ne.
    + intros f Hf. rewrite Hr in Hf. discriminate Hf.
Qed.

(** X2.  A deposit followed by a withdrawal of the same amount by the same
    member, when the deposit fits the balance and the transfer is accepted,
    gives back every balance as it was and changes nothing else. *)
Theorem X2_deposit_then_withdraw v e e' s :
  msg_sender e' = msg_sender e →
  balanceOf s (msg_sender e) + v ≤ UINT256_MAX →
  accepts_transfer e' = true →
  ∃ s1 s2, depositTokens v e s = Ok (tt, s1, [])
    ∧ withdrawTokens v e' s1 = Ok (tt, s2, [Transfer (msg_sender e) v])
    ∧ (∀ m, balanceOf s2 m = balanceOf s m)
    ∧ encryptedProposals s2 = encryptedProposals s
    ∧ memberVotes s2 = memberVotes s
    ∧ proposalCount s2 = proposalCount s
    ∧ fheRequests s2 = fheRequests s.
Proof.
  intros Hsame Hfit Hyes.
  eexists _, _. split.
  { rewrite depositTokens_eq. apply N.leb_le in Hfit. by rewrite Hfit. }
  split.
  { rewrite withdrawTokens_eq, Hsame, balanceOf_set_balance_eq, Hyes.
    assert ((v <=? balanceOf s (msg_sender e) + v) = true) as -> by (apply N.leb_le; lia).
    reflexivity. }
  split; [|done].
  intros m. destruct (decide (m = msg_sender e)) as [->|Hne].
  - rewrite balanceOf_set_balance_eq. lia.
  - by rewrite !balanceOf_set_balance_ne.
Qed.

Lemma transact_ledger m s tx :
  balanceOf (transact s tx) m + paid_out m s tx = balanceOf s m + paid_in m s tx.
Proof.
  destruct tx as [e c]. unfold paid_out, paid_in, accepted, transact, storage_after.
  destruct c; simpl.
  - rewrite createEncryptedProposal_eq. repeat case_match; simplify_eq; done.
  - rewrite castEncryptedVote_eq. repeat case_match; simplify_eq; done.
  - rewrite requestVoteTallyDecryption_eq. repeat case_match; simplify_eq; done.
  - rewrite decryptVoteTally_eq. repeat case_match; simplify_eq; done.
  - rewrite depositTokens_eq.
    destruct (balanceOf s (msg_sender e) + msg_value <=? UINT256_MAX); simpl; [|done].
    destruct (msg_sender e =? m) eqn:Hm.
    + apply N.eqb_eq in Hm as <-. rewrite balanceOf_set_balance_eq. lia.
    + apply N.eqb_neq in Hm. rewrite balanceOf_set_balance_ne; [lia|done].
  - rewrite withdrawTokens_eq.
    destruct (amount <=? balanceOf s (msg_sender e)) eqn:Hle; simpl; [|done].
    apply N.leb_le in Hle.
    destruct (accepts_transfer e); simpl; [|done].
    destruct (msg_sender e =? m) eqn:Hm.
    + apply N.eqb_eq in Hm as <-. rewrite balanceOf_set_balance_eq. lia.
    + apply N.eqb_neq in Hm. rewrite balanceOf_set_balance_ne; [lia|done].
Qed.

(** X3.  Over every trace of transactions, the balance of a member is what
    it was, plus what the member's accepted deposits paid in, minus what the
    member's accepted withdrawals paid out: no vote, no proposal, no
    decryption and no transaction of another member moves it, and a member
    is never paid more than the balance and the deposits cover. *)
Theorem X3_ledger m txs : ∀ s,
  balanceOf (transact_all s txs) m + total_paid_out m s txs
    = balanceOf s m + total_paid_in m s txs.
Proof.
  induction txs as [|tx rest IH]; intros s; [done|].
  change (transact_all s (tx :: rest)) with (transact_all (transact s tx) rest).
  cbn [total_paid_in total_paid_out].
  pose proof (transact_ledger m s tx) as Hstep.
  specialize (IH (transact s tx)). lia.
Qed.

End Accounts.

(** ** The table of proposals *)

Section Table.
Context {B : Backend}.

Lemma well_formed_initial o : well_formed (initial o).
Proof.
  unfold well_formed, initial, balanceOf; simpl.
  split; [|split; [|split; [|split]]].
  - intros q. rewrite lookup_empty. split; [by intros [? ?]|lia].
  - intros q p. by rewrite lookup_empty.
  - intros q m v. by rewrite lookup_empty.
  - apply N.le_0_l.
  - intros m. rewrite lookup_empty. apply N.le_0_l.
Qed.

(** A proposal with a deadline in the future is a stored one. *)
Lemma open_proposal_stored s p now :
  now < endTime (proposal s p) → encryptedProposals s !! p = Some (proposal s p).
Proof.
  unfold proposal. destruct (encryptedProposals s !! p); simpl; [done|lia].
Qed.

Lemma well_formed_created t d now s :
  proposalCount s + 1 ≤ UINT256_MAX →
  now + VOTING_PERIOD ≤ UINT256_MAX →
  well_formed s → well_formed (created t d now s).
Proof.
  intros Hc Ht (Hdom & Hid & Hvotes & Hcount & Hbal).
  unfold well_formed, created, balanceOf; simpl.
  split; [|split; [|split; [|split]]].
  - intros q. destruct (decide (q = proposalCount s + 1)) as [->|Hne].
    + rewrite lookup_insert_eq. split; [lia|by eexists].
    + rewrite lookup_insert_ne by done. rewrite Hdom. lia.
  - intros q p. destruct (decide (q = proposalCount s + 1)) as [->|Hne].
    + rewrite lookup_insert_eq. intros [= <-]. simpl. lia.
    + rewrite lookup_insert_ne by done. apply Hid.
  - intros q m v Hv. destruct (Hvotes q m v Hv) as [? ?]. split; [done|lia].
  - done.
  - exact Hbal.
Qed.

Lemma well_formed_voted p who c now s :
  now < endTime (proposal s p) →
  well_formed s → well_formed (voted p who c s).
Proof.
  intros Hopen (Hdom & Hid & Hvotes & Hcount & Hbal).
  pose proof (open_proposal_stored s p now Hopen) as Hstored.
  assert (1 ≤ p ≤ proposalCount s) as Hp by (apply Hdom; by eexists).
  destruct (Hid p _ Hstored) as [Hidp Hend].
  unfold well_formed, voted, balanceOf; simpl.
  split; [|split; [|split; [|split]]].
  - intros q. destruct (decide (q = p)) as [->|Hne].
    + rewrite lookup_insert_eq. split; [done|by eexists].
    + rewrite !lookup_insert_ne by done. apply Hdom.
  - intros q x. destruct (decide (q = p)) as [->|Hne].
    + rewrite lookup_insert_eq. intros [= <-]. simpl. done.
    + rewrite !lookup_insert_ne by done. apply Hid.
  - intros q m v. destruct (decide ((q, m) = (p, who))) as [[= -> ->]|Hne].
    + rewrite lookup_insert_eq. intros [= <-]. done.
    + rewrite lookup_insert_ne by done. apply Hvotes.
  - done.
  - exact Hbal.
Qed.

Lemma well_formed_set_balance m n s :
  n ≤ UINT256_MAX → well_formed s → well_formed (set_balance m n s).
Proof.
  intros Hn (Hdom & Hid & Hvotes & Hcount & Hbal).
  unfold well_formed; simpl. repeat (split; [done|]).
  intros m'. destruct (decide (m = m')) as [<-|Hne].
  - by rewrite balanceOf_set_balance_eq.
  - rewrite balanceOf_set_balance_ne by done. apply Hbal.
Qed.

Lemma well_formed_set_fheRequests o s :
  well_formed s → well_formed (set_fheRequests o s).
Proof. done. Qed.

Lemma well_formed_transact s tx : well_formed s → well_formed (transact s tx).
Proof.
  intros Hwf. destruct tx as [e c]. unfold transact, storage_after; simpl.
  destruct c; simpl.
  - rewrite createEncryptedProposal_eq.
    destruct (proposalCount s + 1 <=? UINT256_MAX) eqn:Hc; [|done].
    destruct (block_timestamp e + VOTING_PERIOD <=? UINT256_MAX) eqn:Ht; [|done].
    apply N.leb_le in Hc, Ht. by apply well_formed_created.
  - rewrite castEncryptedVote_eq.
    destruct (block_timestamp e <? endTime (proposal s proposalId)) eqn:Ht; [|done].
    destruct (hasVoted (memberVote s proposalId (msg_sender e))); [done|].
    apply N.ltb_lt in Ht. by eapply well_formed_voted.
  - rewrite requestVoteTallyDecryption_eq.
    destruct (endTime (proposal s proposalId) <=? block_timestamp e); [|done].
    destruct (FHE_requestDecryption _ _ _) as [[reqId o']|]; [|done].
    by apply well_formed_set_fheRequests.
  - rewrite decryptVoteTally_eq. repeat case_match; simplify_eq; done.
  - rewrite depositTokens_eq.
    destruct (balanceOf s (msg_sender e) + msg_value <=? UINT256_MAX) eqn:Hfit; [|done].
    apply N.leb_le in Hfit. by apply well_formed_set_balance.
  - rewrite withdrawTokens_eq.
    destruct (amount <=? balanceOf s (msg_sender e)) eqn:Hle; [|done].
    destruct (accepts_transfer e); [|done].
    apply well_formed_set_balance; [|done].
    destruct Hwf as (_ & _ & _ & _ & Hbal). specialize (Hbal (msg_sender e)). lia.
Qed.

Lemma well_formed_transact_all txs : ∀ s,
  well_formed s → well_formed (transact_all s txs).
Proof.
  induction txs as [|tx rest IH]; intros s Hwf; [done|].
  apply IH. by apply well_formed_transact.
Qed.

(** X4.  In every state the contract reaches from its deployment, whatever
    the transactions, the stored proposals are exactly those numbered 1 to
    [proposalCount], each stored under its own id with a deadline between
    [VOTING_PERIOD] and the top of [uint256]; a vote record exists only for
    one of these proposals and always has [hasVoted] set; and the counter
    and every balance are within [uint256]. *)
Theorem X4_reachable_well_formed o txs :
  let s := transact_all (initial o) txs in
  (∀ q, is_Some (encryptedProposals s !! q) ↔ 1 ≤ q ≤ proposalCount s)
  ∧ (∀ q p, encryptedProposals s !! q = Some p →
       id p = q ∧ VOTING_PERIOD ≤ endTime p ≤ UINT256_MAX)
  ∧ (∀ q m v, memberVotes s !! (q, m) = Some v →
       hasVoted v = true ∧ 1 ≤ q ≤ proposalCount s)
  ∧ proposalCount s ≤ UINT256_MAX
  ∧ (∀ m, balanceOf s m ≤ UINT256_MAX).
Proof.
  exact (well_formed_transact_all txs (initial o) (well_formed_initial o)).
Qed.

End Table.

(** ** Proposals over traces *)

Section TraceProposals.
Context {B : Backend}.

Lemma vote_on_Some q s tx c :
  vote_on q s tx = Some c →
  transact s tx = voted q (msg_sender tx.1) c s
  ∧ block_timestamp tx.1 < endTime (proposal s q).
Proof.
  destruct tx as [e call]. unfold vote_on, accepted, transact, storage_after; simpl.
  destruct call as [|p c0| | | |]; simpl; try done.
  destruct (castEncryptedVote p c0 e s) as [[[[] s1] l1]|f] eqn:Hvote; simpl; [|done].
  destruct (p =? q) eqn:Hq; [|done].
  apply N.eqb_eq in Hq as ->. intros [= <-].
  apply castEncryptedVote_Ok in Hvote as (? & _ & -> & _). done.
Qed.

Lemma vote_on_None_closed q s tx :
  endTime (proposal s q) ≤ block_timestamp tx.1 → vote_on q s tx = None.
Proof.
  intros Hclosed. destruct (vote_on q s tx) as [c|] eqn:Hv; [|done].
  apply vote_on_Some in Hv as [_ Hopen]. lia.
Qed.

(** A transaction that casts no accepted vote on [q] leaves the proposal
    [q], once created, and the vote records of [q] as they are. *)
Lemma transact_untouched q s tx :
  vote_on q s tx = None →
  (q ≤ proposalCount s → proposal (transact s tx) q = proposal s q)
  ∧ (∀ m, memberVote (transact s tx) q m = memberVote s q m).
Proof.
  destruct tx as [e call]. unfold vote_on, accepted, transact, storage_after; simpl.
  destruct call as [t d|p c0|p|r ct pf|v|a]; simpl.
  - intros _. rewrite createEncryptedProposal_eq.
    repeat case_match; simplify_eq; try done.
    split; [|done]. intros Hq. apply created_proposal_ne. lia.
  - rewrite castEncryptedVote_eq.
    destruct (block_timestamp e <? endTime (proposal s p)); [|done].
    destruct (hasVoted (memberVote s p (msg_sender e))); [done|]. simpl.
    destruct (p =? q) eqn:Hq; [done|]. apply N.eqb_neq in Hq. intros _.
    split.
    + intros _. by apply voted_proposal_ne.
    + intros m. apply voted_memberVote_ne. congruence.
  - intros _. rewrite requestVoteTallyDecryption_eq. repeat case_match; simplify_eq; done.
  - intros _. rewrite decryptVoteTally_eq. repeat case_match; simplify_eq; done.
  - intros _. rewrite depositTokens_eq. repeat case_match; simplify_eq; done.
  - intros _. rewrite withdrawTokens_eq. repeat case_match; simplify_eq; done.
Qed.

(** No transaction changes the id, the title, the details or the deadline of
    a proposal that has been created. *)
Lemma transact_identity q s tx :
  q ≤ proposalCount s →
  id (proposal (transact s tx) q) = id (proposal s q)
  ∧ encryptedTitle (proposal (transact s tx) q) = encryptedTitle (proposal s q)
  ∧ encryptedDetails (proposal (transact s tx) q) = encryptedDetails (proposal s q)
  ∧ endTime (proposal (transact s tx) q) = endTime (proposal s q).
Proof.
  intros Hq. destruct (vote_on q s tx) as [c|] eqn:Hv.
  - apply vote_on_Some in Hv as [-> _]. by rewrite voted_proposal_eq.
  - apply transact_untouched in Hv as [-> _]; done.
Qed.

Lemma identity_over_trace q txs : ∀ s,
  q ≤ proposalCount s →
  id (proposal (transact_all s txs) q) = id (proposal s q)
  ∧ encryptedTitle (proposal (transact_all s txs) q) = encryptedTitle (proposal s q)
  ∧ encryptedDetails (proposal (transact_all s txs) q) = encryptedDetails (proposal s q)
  ∧ endTime (proposal (transact_all s txs) q) = endTime (proposal s q).
Proof.
  induction txs as [|tx rest IH]; intros s Hq; [done|].
  change (transact_all s (tx :: rest)) with (transact_all (transact s tx) rest).
  pose proof (transact_proposalCount_mono s tx) as Hmono.
  destruct (transact_identity q s tx Hq) as (<- & <- & <- & <-).
  apply IH. lia.
Qed.

(** X5.  Once a proposal has been created, no sequence of transactions,
    votes and later creations included, changes its id, its encrypted title,
    its encrypted details or its deadline. *)
Theorem X5_proposal_identity_immutable q txs : ∀ s,
  q ≤ proposalCount s →
  let s' := transact_all s txs in
  id (proposal s' q) = id (proposal s q)
  ∧ encryptedTitle (proposal s' q) = encryptedTitle (proposal s q)
  ∧ encryptedDetails (proposal s' q) = encryptedDetails (proposal s q)
  ∧ endTime (proposal s' q) = endTime (proposal s q).
Proof. intros s Hq. by apply identity_over_trace. Qed.

Lemma frozen_over_trace q txs : ∀ s,
  q ≤ proposalCount s →
  Forall (λ tx : Env * Call, endTime (proposal s q) ≤ block_timestamp tx.1) txs →
  proposal (transact_all s txs) q = proposal s q
  ∧ ∀ m, memberVote (transact_all s txs) q m = memberVote s q m.
Proof.
  induction txs as [|tx rest IH]; intros s Hq Hlate; [done|].
  change (transact_all s (tx :: rest)) with (transact_all (transact s tx) rest).
  apply Forall_cons in Hlate as [Hnow Hlate].
  pose proof (transact_proposalCount_mono s tx) as Hmono.
  destruct (transact_untouched q s tx (vote_on_None_closed q s tx Hnow)) as [Hp Hm].
  specialize (Hp Hq).
  destruct (IH (transact s tx)) as [Hp' Hm'].
  - lia.
  - by rewrite Hp.
  - split; [by rewrite Hp'|]. intros m. by rewrite Hm'.
Qed.

(** X6.  From the deadline of a created proposal on, it is frozen: a
    sequence of transactions whose times are all at or after the deadline
    leaves the whole proposal, both accumulators included, and every vote
    record of the proposal exactly as they were. *)
Theorem X6_frozen_after_deadline q txs : ∀ s,
  q ≤ proposalCount s →
  Forall (λ tx : Env * Call, endTime (proposal s q) ≤ block_timestamp tx.1) txs →
  proposal (transact_all s txs) q = proposal s q
  ∧ ∀ m, memberVote (transact_all s txs) q m = memberVote s q m.
Proof. intros s. apply frozen_over_trace. Qed.

(** A vote record that is set is not written again. *)
Lemma transact_record_kept q m s tx :
  hasVoted (memberVote s q m) = true →
  memberVote (transact s tx) q m = memberVote s q m.
Proof.
  intros Hset. destruct (vote_on q s tx) as [c|] eqn:Hv.
  - pose proof Hv as Hv'. apply vote_on_Some in Hv' as [-> _].
    destruct tx as [e call]. simpl.
    apply voted_memberVote_ne. intros [= <-].
    unfold vote_on, accepted in Hv. simpl in Hv.
    destruct call as [|p c0| | | |]; try done.
    simpl in Hv. rewrite castEncryptedVote_eq in Hv.
    destruct (p =? q) eqn:Hq;
      [apply N.eqb_eq in Hq as ->|by rewrite andb_false_r in Hv].
    rewrite Hset in Hv. by repeat case_match.
  - by apply transact_untouched.
Qed.

(** X7.  The encrypted vote a member has cast is kept for good: after an
    accepted vote, whatever transactions follow, the member's record for the
    proposal still holds the ciphertext of that vote with [hasVoted] set. *)
Theorem X7_vote_record_kept q c e s a s1 l txs :
  castEncryptedVote q c e s = Ok (a, s1, l) →
  memberVote (transact_all s1 txs) q (msg_sender e) = mkMemberVote c true.
Proof.
  intros Hok. apply castEncryptedVote_Ok in Hok as (_ & _ & -> & _).
  pose proof (voted_memberVote_eq q (msg_sender e) c s) as Hrec.
  revert Hrec. generalize (voted q (msg_sender e) c s) as s1.
  induction txs as [|tx rest IH]; intros s1 Hrec; [done|].
  change (transact_all s1 (tx :: rest)) with (transact_all (transact s1 tx) rest).
  apply IH. rewrite transact_record_kept; [done|]. by rewrite Hrec.
Qed.

End TraceProposals.

Section TraceTallyProofs.
Context {B : Backend} {H : Homomorphic B}.

(** X8.  Whatever other transactions are interleaved, the accumulators of a
    created proposal move only by the accepted votes on it: after any trace
    the vote count decrypts to its value before plus the sum of the accepted
    vote counts, and the cost sum to its value before plus the sum of their
    squares, modulo 2^32. *)
Theorem X8_tally_over_trace q txs : ∀ s,
  q ≤ proposalCount s →
  decrypt (encryptedVoteCount (proposal (transact_all s txs) q))
    = (decrypt (encryptedVoteCount (proposal s q)) + sum_plain (votes_on q s txs))
        mod UINT32_MOD
  ∧ decrypt (encryptedCostSum (proposal (transact_all s txs) q))
    = (decrypt (encryptedCostSum (proposal s q)) + sum_squares (votes_on q s txs))
        mod UINT32_MOD.
Proof.
  induction txs as [|tx rest IH]; intros s Hq.
  - simpl. rewrite !N.add_0_r, !N.mod_small; [done|apply decrypt_range..].
  - change (transact_all s (tx :: rest)) with (transact_all (transact s tx) rest).
    pose proof (transact_proposalCount_mono s tx) as Hmono.
    destruct (IH (transact s tx)) as [Hv Hc]; [lia|].
    rewrite Hv, Hc. cbn [votes_on].
    destruct (vote_on q s tx) as [c|] eqn:Hvote.
    + apply vote_on_Some in Hvote as [-> _].
      rewrite voted_proposal_eq; simpl.
      rewrite !decrypt_add, decrypt_mul.
      rewrite N.Div0.add_mod_idemp_r, !N.Div0.add_mod_idemp_l.
      split; f_equal; lia.
    + apply transact_untouched in Hvote as [-> _]; done.
Qed.

End TraceTallyProofs.

Section Requests.
Context {B : Backend}.

(** X9.  The callback keeps no trace of an answer it has accepted: a
    [decryptVoteTally] call that succeeds can be repeated, by any sender at
    any time, and succeeds again with the same event, the storage still as
    it was before the first call. *)
Theorem X9_callback_can_be_replayed r cleartexts proof e s a s' l :
  decryptVoteTally r cleartexts proof e s = Ok (a, s', l) →
  s' = s
  ∧ ∀ e', decryptVoteTally r cleartexts proof e' s' = Ok (tt, s', l).
Proof.
  rewrite decryptVoteTally_eq.
  destruct (FHE_checkSignatures (fheRequests s) r cleartexts proof) eqn:Hsig; [|done].
  destruct (abi_decode_uint32_array cleartexts) eqn:Hdec; [|done].
  intros [= <- <- <-]. split; [done|].
  intros e'. by rewrite decryptVoteTally_eq, Hsig, Hdec.
Qed.

(** X10.  The contract has no test of its own against a decryption request
    for an id that was never created: in every reachable state, and at
    every time, a request for an id above the counter of proposals passes
    the deadline test, hands the two handles of an unwritten slot to the FHE
    library and ends as the library answers, going through when the library
    accepts them and reverting in the library when it refuses them, never
    with ["Voting still open"]; a vote on the same id is refused with
    ["Voting closed"]. *)
Theorem X10_request_for_missing_proposal o txs q e :
  let s := transact_all (initial o) txs in
  proposalCount s < q →
  requestVoteTallyDecryption q e s
    = match FHE_requestDecryption (fheRequests s)
              [FHE_toBytes32 euint32_unset; FHE_toBytes32 euint32_unset]
              "decryptVoteTally" with
      | Some (_, o') => Ok (tt, set_fheRequests o' s, [])
      | None => Revert (ExternalRevert "FHE.requestDecryption")
      end
  ∧ requestVoteTallyDecryption q e s ≠ Revert (Error "Voting still open")
  ∧ ∀ c, castEncryptedVote q c e s = Revert (Error "Voting closed").
Proof.
  intros s Hq.
  pose proof (well_formed_transact_all txs (initial o) (well_formed_initial o))
    as (Hdom & _).
  fold s in Hdom.
  assert (encryptedProposals s !! q = None) as Hnone.
  { destruct (encryptedProposals s !! q) eqn:Hl; [|done].
    assert (1 ≤ q ≤ proposalCount s) by (apply Hdom; by eexists). lia. }
  assert (proposal s q = zeroProposal) as Hzero by (unfold proposal; by rewrite Hnone).
  assert (requestVoteTallyDecryption q e s
            = match FHE_requestDecryption (fheRequests s)
                      [FHE_toBytes32 euint32_unset; FHE_toBytes32 euint32_unset]
                      "decryptVoteTally" with
              | Some (_, o') => Ok (tt, set_fheRequests o' s, [])
              | None => Revert (ExternalRevert "FHE.requestDecryption")
              end) as Hreq.
  { rewrite requestVoteTallyDecryption_eq, Hzero. simpl.
    assert ((0 <=? block_timestamp e) = true) as -> by (apply N.leb_le; lia). done. }
  split; [exact Hreq|]. split.
  - rewrite Hreq. by destruct (FHE_requestDecryption _ _ _) as [[reqId o']|].
  - intros c. apply castEncryptedVote_closed. rewrite Hzero. simpl. lia.
Qed.

(** X11.  The modifier [sufficientTokens], which no function carries, lets
    the body run exactly when the square of the vote count is within the
    sender's balance, and then adds nothing of its own: it refuses with
    ["Insufficient tokens"] when the square exceeds the balance, with an
    arithmetic panic when the square does not fit [uint256], and it never
    charges the balance it has checked. *)
Theorem X11_sufficientTokens v body e s :
  let bal := balanceOf s (msg_sender e) in
  (UINT256_MAX < v * v → sufficientTokens v body e s = Revert (Panic 17))
  ∧ (v * v ≤ UINT256_MAX → bal < v * v →
     sufficientTokens v body e s = Revert (Error "Insufficient tokens"))
  ∧ (v * v ≤ UINT256_MAX → v * v ≤ bal →
     sufficientTokens v body e s = body e s).
Proof.
  intros bal. subst bal.
  assert (∀ fits enough,
            (v * v <=? UINT256_MAX) = fits →
            (v * v <=? balanceOf s (msg_sender e)) = enough →
            sufficientTokens v body e s =
              if fits then
                if enough then body e s else Revert (Error "Insufficient tokens")
              else Revert (Panic 17)) as Hcases.
  { intros fits enough Hfits Henough.
    unfold sufficientTokens, mbind, M_bind, mret, M_ret, gets, sender,
      require, revert, checked_mul; simpl.
    rewrite Hfits. destruct fits; simpl; [|done].
    rewrite Henough. destruct enough; simpl; [|done].
    destruct (body e s) as [[[[] s1] l1]|f]; done. }
  split; [|split].
  - intros Hover. apply N.leb_gt in Hover. by rewrite (Hcases false _ Hover eq_refl).
  - intros Hfit Hlow. apply N.leb_le in Hfit. apply N.leb_gt in Hlow.
    by rewrite (Hcases true false Hfit Hlow).
  - intros Hfit Hle. apply N.leb_le in Hfit, Hle.
    by rewrite (Hcases true true Hfit Hle).
Qed.

(** X14.  The voting window of a proposal is fixed when it is created:
    whatever transactions follow the creation, a vote on the proposal is
    refused with ["Voting closed"] exactly from the time of creation plus
    [VOTING_PERIOD] on, and a decryption request for it is refused with
    ["Voting still open"] exactly before that time; so a vote goes through
    only before that time, by a member who has not voted on the proposal,
    and a decryption request only from that time on. *)
Theorem X14_voting_window t d e0 s a s1 l txs c e :
  createEncryptedProposal t d e0 s = Ok (a, s1, l) →
  let q := proposalCount s1 in
  let s2 := transact_all s1 txs in
  let closing := block_timestamp e0 + VOTING_PERIOD in
  (castEncryptedVote q c e s2 = Revert (Error "Voting closed")
     ↔ closing ≤ block_timestamp e)
  ∧ (requestVoteTallyDecryption q e s2 = Revert (Error "Voting still open")
     ↔ block_timestamp e < closing)
  ∧ (succeeds (castEncryptedVote q c) e s2 →
     block_timestamp e < closing ∧ hasVoted (memberVote s2 q (msg_sender e)) = false)
  ∧ (succeeds (requestVoteTallyDecryption q) e s2 → closing ≤ block_timestamp e).
Proof.
  rewrite createEncryptedProposal_eq. intros Hnew q s2 closing.
  repeat case_match; simplify_eq.
  assert (endTime (proposal s2 q) = closing) as Hend.
  { subst s2 q closing.
    destruct (identity_over_trace (proposalCount (created t d (block_timestamp e0) s))
                txs (created t d (block_timestamp e0) s) ltac:(done))
      as (_ & _ & _ & ->).
    rewrite created_proposalCount, created_proposal_eq. done. }
  unfold succeeds.
  rewrite castEncryptedVote_eq, requestVoteTallyDecryption_eq, Hend.
  destruct (block_timestamp e <? closing) eqn:Ht;
    [apply N.ltb_lt in Ht|apply N.ltb_ge in Ht].
  - assert ((closing <=? block_timestamp e) = false) as -> by (apply N.leb_gt; lia).
    split; [|split; [|split]].
    + split; [|lia]. by destruct (hasVoted (memberVote s2 q (msg_sender e))).
    + done.
    + intros (a' & s' & l' & Hok). split; [done|].
      by destruct (hasVoted (memberVote s2 q (msg_sender e))).
    + by intros (a' & s' & l' & Hok).
  - assert ((closing <=? block_timestamp e) = true) as -> by (apply N.leb_le; lia).
    split; [|split; [|split]].
    + done.
    + split; [|lia]. by destruct (FHE_requestDecryption _ _ _) as [[reqId o']|].
    + by intros (a' & s' & l' & Hok).
    + done.
Qed.

(** X15.  What is sent for decryption is the final tally: when a decryption
    request for a created proposal is accepted, a vote on the proposal at
    that time is refused, the two handles submitted are the accumulators of
    the proposal, and no transaction at that time or later changes the
    proposal. *)
Theorem X15_submitted_tally_is_final q e s a s1 l txs :
  q ≤ proposalCount s →
  requestVoteTallyDecryption q e s = Ok (a, s1, l) →
  Forall (λ tx : Env * Call, block_timestamp e ≤ block_timestamp tx.1) txs →
  (∀ c, castEncryptedVote q c e s = Revert (Error "Voting closed"))
  ∧ (∃ reqId,
       FHE_requestDecryption (fheRequests s)
         [FHE_toBytes32 (encryptedVoteCount (proposal s q));
          FHE_toBytes32 (encryptedCostSum (proposal s q))]
         "decryptVoteTally"
       = Some (reqId, fheRequests s1))
  ∧ proposal (transact_all s1 txs) q = proposal s q.
Proof.
  intros Hq. rewrite requestVoteTallyDecryption_eq.
  destruct (endTime (proposal s q) <=? block_timestamp e) eqn:Hclosed; [|done].
  apply N.leb_le in Hclosed.
  destruct (FHE_requestDecryption _ _ _) as [[reqId o']|]; [|done].
  intros [= <- <- <-] Hlater.
  split; [intros c; by apply castEncryptedVote_closed|]. split; [by exists reqId|].
  match goal with |- proposal (transact_all ?s1 _) _ = _ =>
    destruct (frozen_over_trace q txs s1) as [-> _]; [done| |done] end.
  eapply Forall_impl; [exact Hlater|]. intros tx Htx. simpl in *.
  change (endTime (proposal s q) ≤ block_timestamp tx.1). lia.
Qed.

End Requests.

Section TraceExamples.
Import Clear Scenario.

Lemma X1_withdraw_witness :
  (balanceOf s_funded alice < 101
   ∧ fails_with (withdrawTokens 101) (at_time alice 1002) s_funded InsufficientBalance)
  ∧ (40 ≤ balanceOf s_funded alice
     ∧ ∃ s', withdrawTokens 40 (at_time alice 1002) s_funded
               = Ok (tt, s', [Transfer alice 40])
         ∧ balanceOf s' alice = 60).
Proof.
  assert (balanceOf s_funded (msg_sender (at_time alice 1002)) < 101) as Hlt
    by reflexivity.
  assert (40 ≤ balanceOf s_funded (msg_sender (at_time alice 1002))) as Hle
    by (vm_compute; discriminate).
  split.
  - split; [exact Hlt|].
    exact (proj1 (X1_withdraw 101 (at_time alice 1002) s_funded) Hlt).
  - split; [exact Hle|].
    destruct (proj1 (proj2 (X1_withdraw 40 (at_time alice 1002) s_funded)) Hle eq_refl)
      as (s' & Hok & Hbal & _).
    exists s'. split; [exact Hok|].
    apply (N.add_cancel_r _ _ 40). etrans; [exact Hbal|reflexivity].
Defined.

Lemma X2_deposit_then_withdraw_witness :
  balanceOf s_funded alice + 50 ≤ UINT256_MAX
  ∧ ∃ s1 s2, depositTokens 50 (at_time alice 1002) s_funded = Ok (tt, s1, [])
      ∧ withdrawTokens 50 (at_time alice 1003) s1 = Ok (tt, s2, [Transfer alice 50])
      ∧ balanceOf s1 alice = 150
      ∧ balanceOf s2 alice = 100.
Proof.
  assert (balanceOf s_funded (msg_sender (at_time alice 1002)) + 50 ≤ UINT256_MAX)
    as Hfit by (vm_compute; discriminate).
  split; [exact Hfit|].
  destruct (X2_deposit_then_withdraw 50 (at_time alice 1002) (at_time alice 1003)
              s_funded eq_refl Hfit eq_refl) as (s1 & s2 & Hin & Hout & Hbal & _).
  exists s1, s2. split; [exact Hin|]. split; [exact Hout|]. split.
  - assert (depositTokens 50 (at_time alice 1002) s_funded
              = Ok (tt, set_balance alice 150 s_funded, [])) as Hin' by reflexivity.
    rewrite Hin' in Hin. injection Hin as <-. reflexivity.
  - etrans; [exact (Hbal alice)|reflexivity].
Defined.

Lemma X5_proposal_identity_immutable_witness :
  1 ≤ proposalCount s_created
  ∧ endTime (proposal s_two 1) = deadline
  ∧ encryptedTitle (proposal s_two 1) = 11.
Proof.
  assert (1 ≤ proposalCount s_created) as Hq by (vm_compute; discriminate).
  pose proof (X5_proposal_identity_immutable 1
                [(at_time alice 1001, DepositTokens 100);
                 (at_time alice 1002, CastEncryptedVote 1 3);
                 (at_time alice 1003, CreateEncryptedProposal 33 44);
                 (at_time bob 1004, CastEncryptedVote 2 3)]
                s_created Hq) as (_ & Htitle & _ & Hend).
  split; [exact Hq|]. split.
  - etrans; [exact Hend|reflexivity].
  - etrans; [exact Htitle|reflexivity].
Defined.

Lemma X6_frozen_after_deadline_witness :
  1 ≤ proposalCount s_voted
  ∧ proposal
      (transact_all s_voted
         [(at_time bob deadline, CastEncryptedVote 1 4);
          (at_time bob 700000, RequestVoteTallyDecryption 1);
          (at_time alice 700001, CreateEncryptedProposal 33 44)]) 1
    = proposal s_voted 1
  ∧ decrypt (encryptedVoteCount (proposal s_voted 1)) = 3.
Proof.
  assert (1 ≤ proposalCount s_voted) as Hq by (vm_compute; discriminate).
  split; [exact Hq|]. split; [|reflexivity].
  apply (X6_frozen_after_deadline 1); [exact Hq|].
  repeat constructor; vm_compute; discriminate.
Defined.

Lemma X7_vote_record_kept_witness :
  castEncryptedVote 1 3 (at_time alice 1002) s_funded
    = Ok (tt, s_voted, [VoteCast 1 alice])
  ∧ memberVote s_two 1 alice = mkMemberVote 3 true.
Proof.
  assert (castEncryptedVote 1 3 (at_time alice 1002) s_funded
            = Ok (tt, s_voted, [VoteCast 1 alice])) as Hok by reflexivity.
  split; [exact Hok|].
  exact (X7_vote_record_kept 1 3 (at_time alice 1002) s_funded _ _ _
           [(at_time alice 1003, CreateEncryptedProposal 33 44);
            (at_time bob 1004, CastEncryptedVote 2 3)] Hok).
Defined.

Lemma X8_tally_over_trace_witness :
  1 ≤ proposalCount s_created
  ∧ decrypt (encryptedVoteCount
               (proposal
                  (transact_all s_created
                     [(at_time alice 1001, DepositTokens 100);
                      (at_time alice 1002, CastEncryptedVote 1 2);
                      (at_time alice 1003, CreateEncryptedProposal 33 44);
                      (at_time bob 1004, CastEncryptedVote 1 4);
                      (at_time bob 1005, CastEncryptedVote 2 7);
                      (at_time bob 1006, CastEncryptedVote 1 9)]) 1)) = 6.
Proof.
  assert (1 ≤ proposalCount s_created) as Hq by (vm_compute; discriminate).
  split; [exact Hq|].
  etrans; [exact (proj1 (X8_tally_over_trace 1 _ s_created Hq))|reflexivity].
Defined.

Lemma X10_request_for_missing_proposal_witness :
  proposalCount s_created < 5
  ∧ requestVoteTallyDecryption 5 (at_time bob 1001) s_created
    = Ok (tt, set_fheRequests [[0; 0]] s_created, [])
  ∧ castEncryptedVote 5 3 (at_time bob 1001) s_created = Revert (Error "Voting closed").
Proof.
  assert (proposalCount
            (transact_all (initial [])
               [(at_time alice 1000, CreateEncryptedProposal 11 22)]) < 5) as Hq
    by reflexivity.
  pose (txs := [(at_time alice 1000, CreateEncryptedProposal 11 22)]).
  destruct (X10_request_for_missing_proposal (fheRequests genesis) txs 5
              (at_time bob 1001) Hq) as (Hreq & _ & Hvote).
  split; [exact Hq|]. split.
  - etrans; [exact Hreq|reflexivity].
  - exact (Hvote 3).
Defined.

Lemma X11_sufficientTokens_witness :
  (balanceOf s_funded bob < 3 * 3
   ∧ sufficientTokens 3 (castEncryptedVote 1 3) (at_time bob 1002) s_funded
     = Revert (Error "Insufficient tokens"))
  ∧ (3 * 3 ≤ balanceOf s_funded alice
     ∧ sufficientTokens 3 (castEncryptedVote 1 3) (at_time alice 1002) s_funded
       = Ok (tt, s_voted, [VoteCast 1 alice])
     ∧ balanceOf s_voted alice = balanceOf s_funded alice).
Proof.
  assert (3 * 3 ≤ UINT256_MAX) as Hfit by (vm_compute; discriminate).
  assert (balanceOf s_funded (msg_sender (at_time bob 1002)) < 3 * 3) as Hlow
    by reflexivity.
  assert (3 * 3 ≤ balanceOf s_funded (msg_sender (at_time alice 1002))) as Hle
    by (vm_compute; discriminate).
  split.
  - split; [exact Hlow|].
    exact (proj1 (proj2 (X11_sufficientTokens 3 (castEncryptedVote 1 3)
                           (at_time bob 1002) s_funded)) Hfit Hlow).
  - split; [exact Hle|]. split; [|reflexivity].
    etrans; [exact (proj2 (proj2 (X11_sufficientTokens 3 (castEncryptedVote 1 3)
                                    (at_time alice 1002) s_funded)) Hfit Hle)|].
    reflexivity.
Defined.

Lemma X9_callback_can_be_replayed_witness :
  decryptVoteTally 0 (encode_uint32_array [3; 9]) kms_proof (at_time bob 700001)
    s_requested
    = Ok (tt, s_requested, [VoteTallyDecrypted 0])
  ∧ decryptVoteTally 0 (encode_uint32_array [3; 9]) kms_proof (at_time alice 800000)
      s_requested
    = Ok (tt, s_requested, [VoteTallyDecrypted 0]).
Proof.
  assert (decryptVoteTally 0 (encode_uint32_array [3; 9]) kms_proof (at_time bob 700001)
            s_requested
          = Ok (tt, s_requested, [VoteTallyDecrypted 0])) as Hok by reflexivity.
  split; [exact Hok|].
  exact (proj2 (X9_callback_can_be_replayed _ _ _ _ _ _ _ _ Hok) (at_time alice 800000)).
Defined.

Lemma X14_voting_window_witness :
  createEncryptedProposal 11 22 (at_time alice 1000) genesis
    = Ok (tt, s_created, [ProposalCreated 1 deadline])
  ∧ castEncryptedVote 1 4 (at_time bob deadline) s_voted = Revert (Error "Voting closed")
  ∧ castEncryptedVote 1 4 (at_time bob 1005) s_voted ≠ Revert (Error "Voting closed")
  ∧ requestVoteTallyDecryption 1 (at_time bob 1005) s_voted
    = Revert (Error "Voting still open")
  ∧ requestVoteTallyDecryption 1 (at_time bob deadline) s_voted
    ≠ Revert (Error "Voting still open").
Proof.
  assert (createEncryptedProposal 11 22 (at_time alice 1000) genesis
            = Ok (tt, s_created, [ProposalCreated 1 deadline])) as Hnew by reflexivity.
  pose (txs := [(at_time alice 1001, DepositTokens 100);
                (at_time alice 1002, CastEncryptedVote 1 3)]).
  pose proof (X14_voting_window (B := backend) 11 22 (at_time alice 1000) genesis
                _ _ _ txs 4 (at_time bob deadline) Hnew) as (Hlate & Hlate' & _).
  pose proof (X14_voting_window (B := backend) 11 22 (at_time alice 1000) genesis
                _ _ _ txs 4 (at_time bob 1005) Hnew) as (Hearly & Hearly' & _).
  split; [exact Hnew|]. split; [|split; [|split]].
  - apply Hlate. vm_compute. discriminate.
  - intros Hclosed. apply Hearly in Hclosed. revert Hclosed. vm_compute. by intros [].
  - apply Hearly'. reflexivity.
  - intros Hopen. apply Hlate' in Hopen. revert Hopen. vm_compute. discriminate.
Defined.

Lemma X15_submitted_tally_is_final_witness :
  2 ≤ proposalCount s_two
  ∧ requestVoteTallyDecryption 2 (at_time bob 700000) s_two = Ok (tt, s_requested, [])
  ∧ fheRequests s_requested = [[3; 9]]
  ∧ proposal
      (transact_all s_requested
         [(at_time alice 700001, CastEncryptedVote 2 5);
          (at_time alice 700002, CreateEncryptedProposal 55 66)]) 2
    = proposal s_two 2.
Proof.
  assert (2 ≤ proposalCount s_two) as Hq by (vm_compute; discriminate).
  assert (requestVoteTallyDecryption 2 (at_time bob 700000) s_two
            = Ok (tt, s_requested, [])) as Hreq by reflexivity.
  split; [exact Hq|]. split; [exact Hreq|]. split; [reflexivity|].
  apply (X15_submitted_tally_is_final 2 (at_time bob 700000) s_two _ _ _ _ Hq Hreq).
  repeat constructor; vm_compute; discriminate.
Defined.

End TraceExamples.

(** ** The vote selector *)

Module ClientProofs.
Import Client.
Local Open Scope Z_scope.

Lemma or_one_Int n : n ≠ 0 → or_one (Some (Number (Int n))) = Number (Int n).
Proof. intros Hn. by destruct n. Qed.

Lemma clamp_Int n : clamp (Int n) = Int (Z.max 1 (Z.min n 10)).
Proof. reflexivity. Qed.

(** What is read of a settled selector. *)
Lemma votes_settled va k :
  settled va →
  (votes va k = Member ∧ inherited k = true ∧ va !! k = None)
  ∨ ∃ n, votes va k = Number (Int n) ∧ 1 ≤ n ≤ 10.
Proof.
  intros Hva. unfold votes, read.
  destruct (va !! k) as [x|] eqn:Hk.
  - right. destruct (Hva k x Hk) as [(n & -> & Hn)|[-> _]].
    + exists n. split; [apply or_one_Int; lia|done].
    + exists 1. split; [done|lia].
  - destruct (inherited k) eqn:Hi.
    + left. done.
    + right. exists 1. split; [done|lia].
Qed.

Lemma settled_update k amount va :
  (amount = NaN → inherited k = true) →
  settled va → settled (updateVoteAmount k amount va).
Proof.
  intros Hnan Hva k' x. unfold updateVoteAmount.
  destruct (decide (k = k')) as [<-|Hne].
  - rewrite lookup_insert_eq. intros [= <-].
    destruct amount as [n|]; simpl.
    + left. eexists. split; [done|lia].
    + right. split; [done|by apply Hnan].
  - rewrite lookup_insert_ne by done. apply Hva.
Qed.

Lemma settled_act va a : settled va → settled (act va a).
Proof.
  intros Hva. destruct a as [k parsed|k|k]; simpl; apply settled_update; try done.
  - destruct parsed as [[| |]|]; done.
  - destruct (votes_settled va k Hva) as [(-> & Hi & _)|(n & -> & _)]; done.
  - destruct (votes_settled va k Hva) as [(-> & Hi & _)|(n & -> & _)]; done.
Qed.

Lemma settled_acts l : ∀ va, settled va → settled (acts va l).
Proof.
  induction l as [|a l IH]; intros va Hva; [done|].
  apply IH. by apply settled_act.
Qed.

(** X12.  Whatever the user types and however often the two buttons are
    pressed, the number of votes the client takes for a proposal is between
    1 and 10 and its cost between 1 and 100, so that it never exceeds the
    limit of 100 votes the contract declares; the one exception is a
    proposal id that names a member of [Object.prototype] and has no entry
    yet, for which what is read is that member and not a number. *)
Theorem X12_selector_range l k :
  let va := acts ∅ l in
  (votes va k = Member ∧ inherited k = true ∧ va !! k = None)
  ∨ ∃ n, votes va k = Number (Int n) ∧ 1 ≤ n ≤ 10
       ∧ cost va k = Int (n * n) ∧ 1 ≤ n * n ≤ 100
       ∧ (Z.to_N n ≤ MAX_VOTES_PER_PROPOSAL)%N.
Proof.
  intros va.
  assert (settled va) as Hva.
  { apply settled_acts. intros k' x. by rewrite lookup_empty. }
  destruct (votes_settled va k Hva) as [?|(n & Hn & Hrange)]; [by left|right].
  exists n. split; [done|]. split; [done|].
  split; [unfold cost; by rewrite Hn|]. split; [nia|].
  unfold MAX_VOTES_PER_PROPOSAL. lia.
Qed.

Lemma votes_update_eq k n va :
  votes (updateVoteAmount k (Int n) va) k = Number (Int (Z.max 1 (Z.min n 10))).
Proof.
  unfold votes, read, updateVoteAmount. rewrite lookup_insert_eq, clamp_Int.
  apply or_one_Int. lia.
Qed.

Lemma votes_update_ne k k' amount va :
  k ≠ k' → votes (updateVoteAmount k amount va) k' = votes va k'.
Proof.
  intros Hne. unfold votes, read, updateVoteAmount. by rewrite lookup_insert_ne.
Qed.

(** X13.  The buttons saturate: from a choice of [n] votes, [j] presses of
    [+] give the smaller of [n + j] and 10, [j] presses of [-] give the
    larger of [n - j] and 1, and neither changes the choice for another
    proposal. *)
Theorem X13_buttons_saturate k n j va :
  votes va k = Number (Int n) →
  1 ≤ n ≤ 10 →
  votes (acts va (replicate j (Plus k))) k = Number (Int (Z.min (n + Z.of_nat j) 10))
  ∧ votes (acts va (replicate j (Minus k))) k = Number (Int (Z.max (n - Z.of_nat j) 1))
  ∧ ∀ k', k' ≠ k →
      votes (acts va (replicate j (Plus k))) k' = votes va k'
      ∧ votes (acts va (replicate j (Minus k))) k' = votes va k'.
Proof.
  revert n va. induction j as [|j IH]; intros n va Hn Hrange.
  - simpl. rewrite Hn. split; [f_equal; f_equal; lia|].
    split; [f_equal; f_equal; lia|done].
  - assert (votes (act va (Plus k)) k = Number (Int (Z.min (n + 1) 10))) as Hplus.
    { simpl. rewrite Hn. simpl. rewrite votes_update_eq. f_equal. f_equal. lia. }
    assert (votes (act va (Minus k)) k = Number (Int (Z.max (n - 1) 1))) as Hminus.
    { simpl. rewrite Hn. simpl. rewrite votes_update_eq. f_equal. f_equal. lia. }
    destruct (IH _ _ Hplus ltac:(lia)) as (Hp & _ & Hp').
    destruct (IH _ _ Hminus ltac:(lia)) as (_ & Hm & Hm').
    change (acts va (replicate (S j) (Plus k)))
      with (acts (act va (Plus k)) (replicate j (Plus k))).
    change (acts va (replicate (S j) (Minus k)))
      with (acts (act va (Minus k)) (replicate j (Minus k))).
    rewrite Hp, Hm. split; [f_equal; f_equal; lia|]. split; [f_equal; f_equal; lia|].
    intros k' Hk'. destruct (Hp' k' Hk') as [-> _]. destruct (Hm' k' Hk') as [_ ->].
    simpl. by rewrite !votes_update_ne.
Qed.

Lemma X12_selector_range_witness :
  votes (acts ∅ [Typed "1700000000000-abc1234" (Int 42); Minus "1700000000000-abc1234"])
    "1700000000000-abc1234" = Number (Int 9)
  ∧ votes (acts ∅ [Typed "1700000000000-abc1234" NaN]) "1700000000000-abc1234"
    = Number (Int 1)
  ∧ votes (acts ∅ []) "toString" = Member.
Proof.
  split; [|split; reflexivity].
  destruct (X12_selector_range
              [Typed "1700000000000-abc1234" (Int 42); Minus "1700000000000-abc1234"]
              "1700000000000-abc1234") as [(Hm & _)|(n & Hn & _)].
  - exfalso. revert Hm. vm_compute. discriminate.
  - rewrite Hn. revert Hn. vm_compute. intros [= <-]. reflexivity.
Defined.

Lemma X13_buttons_saturate_witness :
  votes (acts ∅ [Typed "p" (Int 8)]) "p" = Number (Int 8)
  ∧ votes (acts (acts ∅ [Typed "p" (Int 8)]) (replicate 5 (Plus "p"))) "p"
    = Number (Int 10)
  ∧ votes (acts (acts ∅ [Typed "p" (Int 8)]) (replicate 9 (Minus "p"))) "p"
    = Number (Int 1).
Proof.
  assert (votes (acts ∅ [Typed "p" (Int 8)]) "p" = Number (Int 8)) as Hn
    by reflexivity.
  destruct (X13_buttons_saturate "p" 8 5 _ Hn ltac:(lia)) as (Hp & _).
  destruct (X13_buttons_saturate "p" 8 9 _ Hn ltac:(lia)) as (_ & Hm & _).
  split; [exact Hn|]. split; [exact Hp|exact Hm].
Defined.

End ClientProofs.
